(** * Region resolution, aggregation, merge, orchestration and history
      retention of the UK air-quality ETL pipeline

    A shallow embedding of [ETL/transform/mapper.py],
    [ETL/transform/aggregator.py], [ETL/transform/merger.py],
    [ETL/load/loader.py] and [pipeline.py], followed by the properties
    proved about them.

    Conventions of the embedding.
    - A Python [dict] that the code iterates over or builds by successive
      assignments is an insertion-ordered association list ([dict K V]);
      a [dict] that is only looked up by key is a [gmap].
    - JSON documents with a known shape are records; a key whose presence
      the code tests ([k in d]) is an [option] field.
    - Python floats are idealised as exact rationals [Q]; Python ints are [Z].
    - A Python exception is a [None] (or [Raise]) result. *)

From Stdlib Require Import ZArith QArith Qround Lia DecimalString DecimalZ.
From stdpp Require Import base option list strings gmap.

Local Open Scope string_scope.
Local Open Scope list_scope.
Local Open Scope Z_scope.

(* ===================================================================== *)
(** * Part I: the embedding                                              *)
(* ===================================================================== *)

(** ** Python values shared by the modules *)

(** An opaque JSON payload (copied around by the code, never inspected). *)
Unset Elimination Schemes.
Inductive json :=
| JNull
| JBool (b : bool)
| JNum (q : Q)
| JStr (s : string)
| JArr (items : list json)
| JObj (members : list (string * json)).
Set Elimination Schemes.

Module PyDict.

(** Insertion-ordered dictionary. *)
Definition dict (K V : Type) : Type := list (K * V).

Section Ops.
Context {K V : Type} `{EqDecision K}.

(** [d.get(k)]; also decides [k in d]. *)
Fixpoint dict_get (k : K) (d : dict K V) : option V :=
  match d with
  | [] => None
  | (k', v) :: d' => if decide (k' = k) then Some v else dict_get k d'
  end.

(** [d[k] = v]: overwrite in place when [k] is present, else append. *)
Fixpoint dict_set (k : K) (v : V) (d : dict K V) : dict K V :=
  match d with
  | [] => [(k, v)]
  | (k', v') :: d' =>
      if decide (k' = k) then (k', v) :: d' else (k', v') :: dict_set k v d'
  end.

Definition dict_keys (d : dict K V) : list K := d.*1.

End Ops.

(** [if not s] for a value that is [None] or a string. *)
Definition truthy_str (s : option string) : bool :=
  match s with
  | Some s => negb (String.eqb s "")
  | None => false
  end.

(** [if not n] for a value that is [None] or an int. *)
Definition truthy_int (n : option Z) : bool :=
  match n with
  | Some n => negb (n =? 0)
  | None => false
  end.

(** [str(n)] and [int(s)] on decimal numerals.  Python's [int] also accepts
    surrounding blanks, a leading plus sign and underscores; [str] never
    produces those. *)
Definition str (n : Z) : string := NilZero.string_of_int (Z.to_int n).
Definition int (s : string) : option Z := Z.of_int <$> NilZero.int_of_string s.

End PyDict.
Import PyDict.

(* --------------------------------------------------------------------- *)
(** ** ETL/transform/mapper.py                                           *)
(* --------------------------------------------------------------------- *)
Module Mapper.

Definition REGION_NAME_TO_ID : gmap string Z :=
  list_to_map
    [ ("North Scotland", 1); ("South Scotland", 2);
      ("North West England", 3); ("North East England", 4);
      ("Yorkshire", 5); ("North Wales", 6); ("South Wales", 7);
      ("West Midlands", 8); ("East Midlands", 9); ("East England", 10);
      ("South West England", 11); ("South England", 12); ("London", 13);
      ("South East England", 14) ].

Record Bounds := mkBounds
  { lat_min : Q; lat_max : Q; lon_min : Q; lon_max : Q }.

(** Declaration order is the iteration order of [UK_REGIONS.items()]. *)
Definition UK_REGIONS : dict string Bounds :=
  [ ("North Scotland", mkBounds 56.5 60.0 (-8.0) (-1.0));
    ("South Scotland", mkBounds 54.8 56.5 (-6.0) (-1.5));
    ("North West England", mkBounds 53.0 55.0 (-4.0) (-2.0));
    ("North East England", mkBounds 53.5 55.5 (-2.0) (-0.5));
    ("Yorkshire", mkBounds 53.0 54.5 (-2.5) (-0.5));
    ("North Wales", mkBounds 52.5 53.5 (-5.0) (-2.8));
    ("South Wales", mkBounds 51.0 52.5 (-5.0) (-2.8));
    ("West Midlands", mkBounds 52.0 53.0 (-3.0) (-1.5));
    ("East Midlands", mkBounds 52.0 53.5 (-1.5) 0.5);
    ("East England", mkBounds 51.5 53.0 (-0.5) 2.0);
    ("South West England", mkBounds 49.5 52.0 (-6.5) (-2.0));
    ("South England", mkBounds 50.5 52.0 (-2.0) 0.0);
    ("London", mkBounds 51.3 51.7 (-0.5) 0.3);
    ("South East England", mkBounds 50.5 52.0 0.0 1.5) ]%Q.

Definition Qlt_bool (x y : Q) : bool := negb (Qle_bool y x).

(** [lat_min <= lat <= lat_max and lon_min <= lon <= lon_max] *)
Definition in_box (bounds : Bounds) (lat lon : Q) : bool :=
  Qle_bool (lat_min bounds) lat && Qle_bool lat (lat_max bounds)
  && Qle_bool (lon_min bounds) lon && Qle_bool lon (lon_max bounds).

(** The value of [x ** 0.5] for a non-negative rational [x], kept as its
    radicand, and [float('inf')].  The code only compares such values with
    [<]; the square root being strictly increasing, they compare as their
    radicands do. *)
Inductive dist :=
| Sqrt (radicand : Q)
| Inf.

Definition dist_ltb (a b : dist) : bool :=
  match a, b with
  | Sqrt x, Sqrt y => Qlt_bool x y
  | Sqrt _, Inf => true
  | Inf, _ => false
  end.

Definition region_lat (bounds : Bounds) : Q := (lat_min bounds + lat_max bounds) / 2.
Definition region_lon (bounds : Bounds) : Q := (lon_min bounds + lon_max bounds) / 2.

(** The squared planar distance from the point to the centre of the box. *)
Definition sq_distance (lat lon : Q) (bounds : Bounds) : Q :=
  ((lat - region_lat bounds) ^ 2 + (lon - region_lon bounds) ^ 2)%Q.

Definition distance (lat lon : Q) (bounds : Bounds) : dist :=
  Sqrt (sq_distance lat lon bounds).

(** First loop of [get_region_from_coordinates]. *)
Fixpoint first_containing (regions : dict string Bounds) (lat lon : Q) : option string :=
  match regions with
  | [] => None
  | (region_name, bounds) :: rest =>
      if in_box bounds lat lon then Some region_name
      else first_containing rest lat lon
  end.

(** Second loop; the state is [(min_distance, closest_region)]. *)
Definition closest_step (lat lon : Q) (st : dist * option string)
    (entry : string * Bounds) : dist * option string :=
  let distance := distance lat lon entry.2 in
  if dist_ltb distance st.1 then (distance, Some entry.1) else st.

Definition closest_loop (regions : dict string Bounds) (lat lon : Q)
    (st : dist * option string) : dist * option string :=
  fold_left (closest_step lat lon) regions st.

Definition get_region_from_coordinates (lat lon : Q) : option string :=
  match first_containing UK_REGIONS lat lon with
  | Some region_name => Some region_name
  | None => (closest_loop UK_REGIONS lat lon (Inf, None)).2
  end.

(** One entry of the IQAir document: [{"status": .., "data": {"region": ..,
    "region_id": .., "location": {"coordinates": [lon, lat]},
    "current": {"weather": {..}, "pollution": {..}}}}]. *)
Record Location := mkLocation
  { loc_coordinates : option (list Q) }.

Record Current := mkCurrent
  { cur_weather : option (dict string Q);
    cur_pollution : option (dict string Q) }.

Record ObsData := mkObsData
  { od_region : option string;
    od_region_id : option Z;
    od_location : option Location;
    od_current : option Current }.

Record Obs := mkObs
  { obs_status : option string;
    obs_data : option ObsData }.

(** ["data" in data and "region" in data["data"]], with the value. *)
Definition obs_region (data : Obs) : option string :=
  match obs_data data with
  | Some d => od_region d
  | None => None
  end.

(** ["data" in data and "region_id" in data["data"]], with the value. *)
Definition obs_region_id (data : Obs) : option Z :=
  match obs_data data with
  | Some d => od_region_id d
  | None => None
  end.

(** ["data" in data and "location" in data["data"] and
    "coordinates" in data["data"]["location"]], with the value. *)
Definition obs_coordinates (data : Obs) : option (list Q) :=
  match obs_data data with
  | Some d =>
      match od_location d with
      | Some loc => loc_coordinates loc
      | None => None
      end
  | None => None
  end.

(** Lines 115-132: the three strategies, each guarded by [if not region]. *)
Definition resolve_region (city : string) (data : Obs)
    (city_to_region : gmap string string) : option string :=
  let region := city_to_region !! city in
  let region :=
    if negb (truthy_str region) then
      match obs_region data with
      | Some r => Some r
      | None => region
      end
    else region in
  let region :=
    if negb (truthy_str region) then
      match obs_coordinates data with
      | Some (lon :: lat :: _) => get_region_from_coordinates lat lon
      | _ => region
      end
    else region in
  region.

(** Lines 146-148: the region fields are written only under ["data" in data]. *)
Definition attach (region : string) (region_id : Z) (data : Obs) : Obs :=
  match obs_data data with
  | Some d =>
      mkObs (obs_status data)
        (Some (mkObsData (Some region) (Some region_id) (od_location d) (od_current d)))
  | None => data
  end.

(** The body of the loop for one city: [None] is [continue]. *)
Definition map_city (city : string) (data : Obs)
    (city_to_region : gmap string string) : option Obs :=
  let region := resolve_region city data city_to_region in
  if negb (truthy_str region) then None
  else
    match region with
    | Some region =>
        let region_id := REGION_NAME_TO_ID !! region in
        if negb (truthy_int region_id) then None
        else
          match region_id with
          | Some region_id => Some (attach region region_id data)
          | None => None
          end
    | None => None
    end.

Definition map_cities_to_regions (iqair_data : dict string Obs)
    (city_to_region : gmap string string) : dict string Obs :=
  fold_left
    (fun mapped_data '(city, data) =>
       match map_city city data city_to_region with
       | Some data' => dict_set city data' mapped_data
       | None => mapped_data
       end)
    iqair_data [].

End Mapper.

(* --------------------------------------------------------------------- *)
(** ** ETL/transform/aggregator.py                                       *)
(* --------------------------------------------------------------------- *)
Module Aggregator.
Import Mapper.

Record AggCurrent := mkAggCurrent
  { agg_weather : dict string Q;
    agg_pollution : dict string Q }.

Record AggData := mkAggData
  { agg_region_id : Z;
    agg_region : string;
    agg_cities_count : Z;
    agg_current : AggCurrent }.

(** One value of the aggregated document: [{"status": .., "data": {..}}]. *)
Record AggEntry := mkAggEntry
  { agg_status : string;
    agg_data : AggData }.

(** [regions[region_id].append(data)] on a [defaultdict(list)]. *)
Definition group_append (region_id : Z) (data : Obs)
    (regions : dict Z (list Obs)) : dict Z (list Obs) :=
  match dict_get region_id regions with
  | Some cities_data => dict_set region_id (cities_data ++ [data]) regions
  | None => dict_set region_id [data] regions
  end.

(** Lines 8-13: only entries with ["data"] and ["region_id"] are grouped. *)
Definition group_by_region (mapped_data : dict string Obs) : dict Z (list Obs) :=
  fold_left
    (fun regions '(_, data) =>
       match obs_region_id data with
       | Some region_id => group_append region_id data regions
       | None => regions
       end)
    mapped_data [].

Definition weather_keys : list string := ["hu"; "pr"; "tp"; "wd"; "ws"].
Definition pollution_keys : list string := ["aqius"; "aqicn"].

(** [{"hu": [], "pr": [], ...}] *)
Definition empty_lists (keys : list string) : dict string (list Q) :=
  map (fun key => (key, [])) keys.

(** [for key in acc: if key in source: acc[key].append(source[key])] *)
Definition collect_from (source : dict string Q)
    (acc : dict string (list Q)) : dict string (list Q) :=
  map (fun '(key, values) =>
         match dict_get key source with
         | Some v => (key, values ++ [v])
         | None => (key, values)
         end)
      acc.

(** Lines 36-50, for one city; the state is [(weather_data, pollution_data)]. *)
Definition collect_city
    (st : dict string (list Q) * dict string (list Q)) (city_data : Obs)
    : dict string (list Q) * dict string (list Q) :=
  match obs_data city_data with
  | Some d =>
      match od_current d with
      | Some current =>
          let weather_data :=
            match cur_weather current with
            | Some w => collect_from w st.1
            | None => st.1
            end in
          let pollution_data :=
            match cur_pollution current with
            | Some p => collect_from p st.2
            | None => st.2
            end in
          (weather_data, pollution_data)
      | None => st
      end
  | None => st
  end.

Definition Qsum (values : list Q) : Q := foldr Qplus 0%Q values.

(** [statistics.mean(values)], called on non-empty lists only. *)
Definition mean (values : list Q) : Q :=
  (Qsum values / inject_Z (Z.of_nat (length values)))%Q.

(** Nearest integer, ties to the even one. *)
Definition round_half_even (x : Q) : Z :=
  let f := Qfloor x in
  match (x - inject_Z f ?= 1 # 2)%Q with
  | Lt => f
  | Gt => f + 1
  | Eq => if Z.even f then f else f + 1
  end.

(** [round(x, 2)] on the exact value of [x]. *)
Definition round2 (x : Q) : Q :=
  Qred (inject_Z (round_half_even (x * 100)) / 100).

(** Lines 52-61: a key is written only under [if values]. *)
Definition aggregate_values (data : dict string (list Q)) : dict string Q :=
  fold_left
    (fun aggregated '(key, values) =>
       match values with
       | [] => aggregated
       | _ :: _ => dict_set key (round2 (mean values)) aggregated
       end)
    data [].

(** The body of the second loop; [None] is the [KeyError] of
    [cities_data[0]["data"]["region"]]. *)
Definition aggregate_region (region_id : Z) (cities_data : list Obs)
    : option AggEntry :=
  first_city ← head cities_data;
  region_name ← obs_region first_city;
  let '(weather_data, pollution_data) :=
    fold_left collect_city cities_data
      (empty_lists weather_keys, empty_lists pollution_keys) in
  let aggregated_weather := aggregate_values weather_data in
  let aggregated_pollution := aggregate_values pollution_data in
  Some (mkAggEntry "success"
          (mkAggData region_id region_name (Z.of_nat (length cities_data))
             (mkAggCurrent aggregated_weather aggregated_pollution))).

Fixpoint aggregate_loop (regions : dict Z (list Obs))
    (aggregated_data : dict string AggEntry) : option (dict string AggEntry) :=
  match regions with
  | [] => Some aggregated_data
  | (region_id, cities_data) :: rest =>
      entry ← aggregate_region region_id cities_data;
      aggregate_loop rest (dict_set (str region_id) entry aggregated_data)
  end.

Definition aggregate_by_region (mapped_data : dict string Obs)
    : option (dict string AggEntry) :=
  aggregate_loop (group_by_region mapped_data) [].

(** *** Vocabulary of the properties *)

(** The two families of metrics, with the keys the aggregator reads. *)
Inductive metric_group := Weather | Pollution.

Definition metric_keys (g : metric_group) : list string :=
  match g with
  | Weather => weather_keys
  | Pollution => pollution_keys
  end.

(** [data["data"]["current"]["weather"]] (or [["pollution"]]), if there. *)
Definition current_metrics (g : metric_group) (city_data : Obs) : option (dict string Q) :=
  match obs_data city_data with
  | Some d =>
      match od_current d with
      | Some current =>
          match g with
          | Weather => cur_weather current
          | Pollution => cur_pollution current
          end
      | None => None
      end
  | None => None
  end.

(** The value an observation reports for a metric, if any. *)
Definition own_value (g : metric_group) (key : string) (city_data : Obs) : option Q :=
  match current_metrics g city_data with
  | Some metrics => dict_get key metrics
  | None => None
  end.

(** The values the members of a partition contribute to a metric. *)
Definition contributing_values (g : metric_group) (key : string)
    (cities_data : list Obs) : list Q :=
  omap (own_value g key) cities_data.

(** The members of the partition of a region identifier, in input order. *)
Definition partition (region_id : Z) (mapped_data : dict string Obs) : list Obs :=
  filter (fun data => obs_region_id data = Some region_id) mapped_data.*2.

(** What [regions.get(region_id)] is once the members of the partition
    have been appended: no key for an empty partition. *)
Definition group_entry (cities_data : list Obs) : option (list Obs) :=
  match cities_data with
  | [] => None
  | _ :: _ => Some cities_data
  end.

Definition aggregated_metrics (g : metric_group) (entry : AggEntry) : dict string Q :=
  match g with
  | Weather => agg_weather (agg_current (agg_data entry))
  | Pollution => agg_pollution (agg_current (agg_data entry))
  end.

End Aggregator.

(* --------------------------------------------------------------------- *)
(** ** ETL/transform/merger.py                                           *)
(* --------------------------------------------------------------------- *)
Module Merger.
Import Aggregator.

(** The CO2 document of one region:
    [{"data": [{.., "data": [{"from": .., "to": .., "intensity": ..,
    "generationmix": ..}]}]}]. *)
Record Co2Point := mkCo2Point
  { pt_intensity : option json;
    pt_generationmix : option json;
    pt_from : option json;
    pt_to : option json }.

Record Co2Info := mkCo2Info
  { info_data : option (list Co2Point) }.

Record Co2Region := mkCo2Region
  { co2_region_list : option (list Co2Info) }.

(** A merged record; the four last keys are set only when copied. *)
Record Merged := mkMerged
  { m_region_id : Z;
    m_region : string;
    m_cities_count : Z;
    m_weather : dict string Q;
    m_pollution : dict string Q;
    m_intensity : option json;
    m_generationmix : option json;
    m_from : option json;
    m_to : option json }.

Definition base_record (region_id : Z) (iqair_region_data : AggEntry) : Merged :=
  let d := agg_data iqair_region_data in
  mkMerged region_id (agg_region d) (agg_cities_count d)
    (agg_weather (agg_current d)) (agg_pollution (agg_current d))
    None None None None.

(** Lines 46-56: each key of the data point is copied when present. *)
Definition add_co2 (merged : Merged) (co2_data_point : Co2Point) : Merged :=
  mkMerged (m_region_id merged) (m_region merged) (m_cities_count merged)
    (m_weather merged) (m_pollution merged)
    (match pt_intensity co2_data_point with Some v => Some v | None => m_intensity merged end)
    (match pt_generationmix co2_data_point with Some v => Some v | None => m_generationmix merged end)
    (match pt_from co2_data_point with Some v => Some v | None => m_from merged end)
    (match pt_to co2_data_point with Some v => Some v | None => m_to merged end).

(** The body of the loop; [None] is the [ValueError] of [int]. *)
Definition merge_region (region_id_str : string) (iqair_region_data : AggEntry)
    (co2_data : gmap string Co2Region) : option Merged :=
  region_id ← int region_id_str;
  match co2_data !! str region_id with
  | Some co2_region_data =>
      let co2_info :=
        match co2_region_list co2_region_data with
        | Some (info :: _) => Some info
        | _ => None
        end in
      let merged := base_record region_id iqair_region_data in
      match co2_info with
      | Some info =>
          match info_data info with
          | Some (co2_data_point :: _) => Some (add_co2 merged co2_data_point)
          | _ => Some merged
          end
      | None => Some merged
      end
  | None => Some (base_record region_id iqair_region_data)
  end.

Fixpoint merge_loop (iqair_aggregated : dict string AggEntry)
    (co2_data : gmap string Co2Region) (merged_data : dict string Merged)
    : option (dict string Merged) :=
  match iqair_aggregated with
  | [] => Some merged_data
  | (region_id_str, iqair_region_data) :: rest =>
      merged ← merge_region region_id_str iqair_region_data co2_data;
      merge_loop rest co2_data (dict_set region_id_str merged merged_data)
  end.

Definition merge_data (iqair_aggregated : dict string AggEntry)
    (co2_data : gmap string Co2Region) : option (dict string Merged) :=
  merge_loop iqair_aggregated co2_data [].

End Merger.

(* --------------------------------------------------------------------- *)
(** ** pipeline.py                                                       *)
(* --------------------------------------------------------------------- *)
Module Pipeline.

Definition PIPELINE_INTERVAL_MINUTES : Z := 30.
Definition MAX_CONSECUTIVE_FAILURES : Z := 5.
Definition FAILURE_BACKOFF_SECONDS : Z := 300.

(** [timedelta(minutes=m)], in seconds. *)
Definition minutes (m : Z) : Z := 60 * m.

(** The global [stats]; times are seconds on the wall clock. *)
Record Stats := mkStats
  { total_runs : Z;
    successful_runs : Z;
    failed_runs : Z;
    consecutive_failures : Z;
    start_time : option Z;
    last_successful_run : option Z }.

Inductive stage := Extract | Transform | Load.

(** [KeyboardInterrupt] and [SystemExit] are not subclasses of
    [Exception]; every other exception is [OtherException]. *)
Inductive exn := KeyboardInterrupt | SystemExit | OtherException.

(** What the [main] of a stage does when it is called. *)
Inductive stage_outcome := Completes | Fails (e : exn).

(** The process state: the wall clock, the global [stats], and the log of
    the stage mains that were called.  Printing ([log_with_timestamp],
    [print_stats]) changes none of them and is left out. *)
Record world := mkWorld
  { clock : Z;
    stats : Stats;
    invoked : list stage }.

Inductive result (A : Type) :=
| Ok (a : A)
| Raise (e : exn).
Arguments Ok {A} a.
Arguments Raise {A} e.

(** Computations that read and change the process state and may raise. *)
Definition M (A : Type) : Type := world -> result A * world.

Definition ret {A} (a : A) : M A := fun w => (Ok a, w).

Definition bind {A B} (c : M A) (k : A -> M B) : M B :=
  fun w =>
    match c w with
    | (Ok a, w') => k a w'
    | (Raise e, w') => (Raise e, w')
    end.

#[global] Instance M_ret : MRet M := @ret.
#[global] Instance M_bind : MBind M := fun A B k c => bind c k.

(** [try: body  except <classes of handled>: handler]. *)
Definition try_except {A} (body : M A) (handled : exn -> bool) (handler : M A) : M A :=
  fun w =>
    match body w with
    | (Ok a, w') => (Ok a, w')
    | (Raise e, w') => if handled e then handler w' else (Raise e, w')
    end.

Definition is_Exception (e : exn) : bool :=
  match e with
  | OtherException => true
  | _ => false
  end.

Definition any_exn (e : exn) : bool := true.

(** [datetime.now()] *)
Definition now : M Z := fun w => (Ok (clock w), w).

(** [time.sleep(seconds)] *)
Definition sleep (seconds : Z) : M unit :=
  fun w => (Ok tt, mkWorld (clock w + seconds) (stats w) (invoked w)).

Definition get_stats : M Stats := fun w => (Ok (stats w), w).

Definition put_stats (s : Stats) : M unit :=
  fun w => (Ok tt, mkWorld (clock w) s (invoked w)).

Section Stages.
(** The outcome of a stage main and the seconds it takes, as a function of
    the stage and of the time of the call. *)
Variable behaviour : stage -> Z -> stage_outcome * Z.

(** [extract_main()], [transform_main()], [loader_main()] *)
Definition stage_main (s : stage) : M unit :=
  fun w =>
    let '(outcome, seconds) := behaviour s (clock w) in
    let w' := mkWorld (clock w + seconds) (stats w) (invoked w ++ [s]) in
    match outcome with
    | Completes => (Ok tt, w')
    | Fails e => (Raise e, w')
    end.

Definition run_extract : M bool :=
  try_except (stage_main Extract;; ret true) is_Exception (ret false).

Definition run_transform : M bool :=
  try_except (stage_main Transform;; ret true) is_Exception (ret false).

Definition run_load : M bool :=
  try_except (stage_main Load;; ret true) is_Exception (ret false).

Definition update_stats (success : bool) : M unit :=
  s ← get_stats;
  let s := mkStats (total_runs s + 1) (successful_runs s) (failed_runs s)
             (consecutive_failures s) (start_time s) (last_successful_run s) in
  if success then
    t ← now;
    put_stats (mkStats (total_runs s) (successful_runs s + 1) (failed_runs s)
                 0 (start_time s) (Some t))
  else
    put_stats (mkStats (total_runs s) (successful_runs s) (failed_runs s + 1)
                 (consecutive_failures s + 1) (start_time s) (last_successful_run s)).

Definition run_pipeline : M bool :=
  pipeline_start ← now;
  let success := true in
  (* Step 1: Extract *)
  extract_success ← run_extract;
  let success := if negb extract_success then false else success in
  (* Step 2: Transform (only if extract succeeded) *)
  transform_success ←
    ((if extract_success then run_transform else ret false) : M bool);
  let success :=
    if extract_success
    then (if negb transform_success then false else success)
    else success in
  (* Step 3: Load (only if transform succeeded) *)
  load_success ←
    ((if transform_success then run_load else ret false) : M bool);
  let success :=
    if transform_success
    then (if negb load_success then false else success)
    else success in
  update_stats success;;
  pipeline_end ← now;
  ret success.

Definition run_pipeline_safe : M bool :=
  try_except
    (success ← run_pipeline;
     s ← get_stats;
     ((if consecutive_failures s >=? MAX_CONSECUTIVE_FAILURES
       then sleep FAILURE_BACKOFF_SECONDS else ret tt) : M unit);;
     ret success)
    any_exn (ret false).

(** Lines 198-214 of [main]: the run at startup; the result is the first
    [next_run_time]. *)
Definition main_startup : M Z :=
  t ← now;
  s ← get_stats;
  put_stats (mkStats (total_runs s) (successful_runs s) (failed_runs s)
               (consecutive_failures s) (Some t) (last_successful_run s));;
  run_pipeline_safe;;
  t ← now;
  ret (t + minutes PIPELINE_INTERVAL_MINUTES).

(** One turn of the [while True] loop of [main]; the result is the
    [next_run_time] of the next turn. *)
Definition scheduler_iteration (next_run_time : Z) : M Z :=
  fun w =>
    match
      (current_time ← now;
       next_run_time ←
         ((if current_time >=? next_run_time then
             run_pipeline_safe;;
             ret (current_time + minutes PIPELINE_INTERVAL_MINUTES)
           else ret next_run_time) : M Z);
       sleep 1;;
       ret next_run_time) w
    with
    | (Ok next_run_time, w') => (Ok next_run_time, w')
    | (Raise OtherException, w') =>
        (sleep 10;;
         t ← now;
         ret (t + minutes PIPELINE_INTERVAL_MINUTES)) w'
    | (Raise _, w') => (sleep 5;; ret next_run_time) w'
    end.

(** The first [turns] turns of the loop. *)
Fixpoint scheduler_loop (turns : nat) (next_run_time : Z) : M Z :=
  match turns with
  | O => ret next_run_time
  | S turns =>
      next_run_time ← scheduler_iteration next_run_time;
      scheduler_loop turns next_run_time
  end.

Definition main (turns : nat) : M Z :=
  next_run_time ← main_startup;
  scheduler_loop turns next_run_time.

End Stages.

Definition initial_stats : Stats := mkStats 0 0 0 0 None None.

End Pipeline.

(* --------------------------------------------------------------------- *)
(** ** ETL/load/loader.py                                                *)
(* --------------------------------------------------------------------- *)
Module Loader.

(** The content of a file: a JSON document, or text [json.load] rejects. *)
Inductive content :=
| Json (j : json)
| Garbage.

(** The directory of the process: the files that exist, by name.  Writing
    a file is taken to succeed. *)
Abbreviation filesystem := (gmap string content).

(** [data[start:]] for an int [start] (negative counts from the end). *)
Definition slice_from {A} (start : Z) (data : list A) : list A :=
  let n := Z.of_nat (length data) in
  let start := if start <? 0 then Z.max (n + start) 0 else Z.min start n in
  drop (Z.to_nat start) data.

Definition load_existing_data (fs : filesystem) (filename : string) : list json :=
  match fs !! filename with
  | Some (Json (JArr data)) => data
  | Some (Json _) => []
  | Some Garbage => []
  | None => []
  end.

(** [{"timestamp": timestamp, "data": data}] *)
Definition add_timestamp_to_data (timestamp : string) (data : json) : json :=
  JObj [("timestamp", JStr timestamp); ("data", data)].

Definition files_to_load : list (string * string) :=
  [ ("mapped.json", "historical_mapped.json");
    ("iqair_mapped.json", "historical_iqair_mapped.json");
    ("merged_data.json", "historical_merged_data.json") ].

(** The body of the loop of [load_and_append_data] for one file; the state
    is [(fs, success_count)].  The MongoDB save touches neither. *)
Definition load_file (timestamp : string) (st : filesystem * Z)
    (file_info : string * string) : filesystem * Z :=
  let '(fs, success_count) := st in
  let '(source_file, target_file) := file_info in
  match fs !! source_file with
  | None => st
  | Some Garbage => st
  | Some (Json new_data) =>
      let historical_data := load_existing_data fs target_file in
      let timestamped_data := add_timestamp_to_data timestamp new_data in
      let historical_data := historical_data ++ [timestamped_data] in
      (<[target_file := Json (JArr historical_data)]> fs, success_count + 1)
  end.

Definition load_and_append_data (timestamp : string) (fs : filesystem)
    : bool * filesystem :=
  let '(fs, success_count) := fold_left (load_file timestamp) files_to_load (fs, 0) in
  (success_count =? Z.of_nat (length files_to_load), fs).

Definition cleanup_old_entries (filename : string) (max_entries : Z)
    (fs : filesystem) : filesystem :=
  match fs !! filename with
  | None => fs
  | Some Garbage => fs
  | Some (Json (JArr data)) =>
      if Z.of_nat (length data) >? max_entries
      then <[filename := Json (JArr (slice_from (- max_entries) data))]> fs
      else fs
  | Some (Json _) => fs
  end.

Definition main (timestamp : string) (fs : filesystem) : bool * filesystem :=
  let '(success, fs) := load_and_append_data timestamp fs in
  if success then
    let fs := cleanup_old_entries "historical_mapped.json" 50 fs in
    let fs := cleanup_old_entries "historical_iqair_mapped.json" 50 fs in
    let fs := cleanup_old_entries "historical_merged_data.json" 50 fs in
    (true, fs)
  else (false, fs).

End Loader.

(* --------------------------------------------------------------------- *)
(** ** ETL/transform/mapper.py: the city table                           *)
(* --------------------------------------------------------------------- *)
Module CityTable.

(** What the CSV reader yields for a line: its columns, or an exception
    (a decoding or CSV error) raised when the line is read. *)
Inductive csv_line :=
| Row (cols : list string)
| Unreadable.

(** The [for row in csv_reader] loop; an exception ends it, and the
    [except] branch keeps the dictionary built so far. *)
Fixpoint read_rows (lines : list csv_line) (city_to_region : gmap string string)
    : gmap string string :=
  match lines with
  | [] => city_to_region
  | Unreadable :: _ => city_to_region
  | Row row :: rest =>
      let city_to_region :=
        match row with
        | city :: region :: _ =>
            if decide (region = "Northern Ireland") then city_to_region
            else <[city := region]> city_to_region
        | _ => city_to_region
        end in
      read_rows rest city_to_region
  end.

(** [file] is [None] when the file cannot be opened; [next(csv_reader)]
    skips the header and raises [StopIteration] on an empty file. *)
Definition load_city_to_region_mapping (file : option (list csv_line))
    : gmap string string :=
  match file with
  | None => ∅
  | Some [] => ∅
  | Some (Unreadable :: _) => ∅
  | Some (Row header :: lines) => read_rows lines ∅
  end.

(** *** Vocabulary of the properties *)

(** The rows read before the first exception. *)
Fixpoint readable (lines : list csv_line) : list (list string) :=
  match lines with
  | Row row :: rest => row :: readable rest
  | _ => []
  end.

(** The region a row gives to [city], if it gives one. *)
Definition row_region (city : string) (row : list string) : option string :=
  match row with
  | c :: region :: _ =>
      if decide (c = city) then
        if decide (region = "Northern Ireland") then None else Some region
      else None
  | _ => None
  end.

End CityTable.

(* --------------------------------------------------------------------- *)
(** ** ETL/transform/transform.py                                        *)
(* --------------------------------------------------------------------- *)
Module Transform.
Import Mapper Aggregator Merger.

(** [main], on the documents the three steps load: the result is what the
    steps save ([mapped.json], [iqair_mapped.json], [merged_data.json]);
    [None] is an exception of the aggregation or of the merge. *)
Definition main (iqair_data : dict string Obs) (city_to_region : gmap string string)
    (co2_data : gmap string Co2Region)
    : option (dict string Obs * dict string AggEntry * dict string Merged) :=
  (* Step 1: Map cities to regions *)
  let mapped_data := map_cities_to_regions iqair_data city_to_region in
  (* Step 2: Aggregate data by region *)
  aggregated_data ← aggregate_by_region mapped_data;
  (* Step 3: Merge with CO2 data *)
  merged_data ← merge_data aggregated_data co2_data;
  Some (mapped_data, aggregated_data, merged_data).

End Transform.

(* --------------------------------------------------------------------- *)
(** ** pipeline.py: vocabulary of the properties                         *)
(* --------------------------------------------------------------------- *)
Module Invariants.
Import Pipeline.

(** The counters add up: every counted run is a success or a failure, the
    failures in a row are among the failures, and a success has left its
    time. *)
Definition stats_consistent (s : Stats) : Prop :=
  total_runs s = successful_runs s + failed_runs s
  /\ 0 <= successful_runs s
  /\ 0 <= consecutive_failures s <= failed_runs s
  /\ (0 < successful_runs s -> is_Some (last_successful_run s)).

End Invariants.

(* --------------------------------------------------------------------- *)
(** ** ETL/load/mongodb_client.py and the loader's use of it             *)
(* --------------------------------------------------------------------- *)
Module MongoDB.

(** A document of the [Climate] collection. *)
Record document := mkDocument
  { doc_timestamp : string;
    doc_pipeline_run_id : string;
    doc_data_type : string;
    doc_data : json }.

(** The global client: its [connected] flag and the collection. *)
Record client := mkClient
  { connected : bool;
    climate : list document }.

Section Driver.
(** Whether [collection.insert_one(document)] returns (or raises). *)
Variable insert_ok : document -> bool.

(** [stamp] is [datetime.now()] as the document records it twice: as a
    time and as a run identifier. *)
Definition save_historical_data (stamp : string * string) (data : json)
    (data_type : string) (c : client) : bool * client :=
  if negb (connected c) then (false, c)
  else
    let document := mkDocument stamp.1 stamp.2 data_type data in
    if insert_ok document
    then (true, mkClient (connected c) (climate c ++ [document]))
    else (false, c).

Definition save_to_mongodb (stamp : string * string) (data : json)
    (data_type : string) (c : client) : bool * client :=
  if connected c then save_historical_data stamp data data_type c
  else (false, c).

End Driver.
End MongoDB.

Module LoaderDb.
Import Loader MongoDB.

(** [files_to_load] with the [mongodb_type] of each file. *)
Definition files_to_load : list (string * string * option string) :=
  [ ("mapped.json", "historical_mapped.json", None);
    ("iqair_mapped.json", "historical_iqair_mapped.json", None);
    ("merged_data.json", "historical_merged_data.json", Some "merged") ].

(** The state of the loop of [load_and_append_data]: the directory, the
    client, and the two counters. *)
Record load_state := mkLoadState
  { ls_fs : filesystem;
    ls_db : client;
    ls_success_count : Z;
    ls_mongodb_success_count : Z }.

Section Driver.
Variable insert_ok : document -> bool.

(** The body of the loop, MongoDB save included. *)
Definition load_file (timestamp : string) (stamp : string * string)
    (mongodb_available : bool) (st : load_state)
    (file_info : string * string * option string) : load_state :=
  let '(source_file, target_file, mongodb_type) := file_info in
  match ls_fs st !! source_file with
  | None => st
  | Some Garbage => st
  | Some (Json new_data) =>
      let '(db, mongodb_success_count) :=
        match mongodb_type with
        | Some data_type =>
            if mongodb_available then
              let '(saved, db) := save_to_mongodb insert_ok stamp new_data data_type (ls_db st) in
              (db, if saved then ls_mongodb_success_count st + 1
                   else ls_mongodb_success_count st)
            else (ls_db st, ls_mongodb_success_count st)
        | None => (ls_db st, ls_mongodb_success_count st)
        end in
      let historical_data := load_existing_data (ls_fs st) target_file in
      let timestamped_data := add_timestamp_to_data timestamp new_data in
      let historical_data := historical_data ++ [timestamped_data] in
      mkLoadState (<[target_file := Json (JArr historical_data)]> (ls_fs st)) db
        (ls_success_count st + 1) mongodb_success_count
  end.

Definition load_and_append_data (timestamp : string) (stamp : string * string)
    (fs : filesystem) (db : client) : bool * load_state :=
  let mongodb_available := connected db in
  let st :=
    fold_left (load_file timestamp stamp mongodb_available) files_to_load
      (mkLoadState fs db 0 0) in
  (ls_success_count st =? Z.of_nat (length files_to_load), st).

End Driver.
End LoaderDb.

(* --------------------------------------------------------------------- *)
(** ** ETL/extract                                                       *)
(* --------------------------------------------------------------------- *)
Module Extract.

(** *** uk_cities.py *)

Definition northern_ireland_cities : list string :=
  [ "Belfast"; "Londonderry"; "Armagh"; "Ballyclare"; "Holywood";
    "Dundrum"; "Londonderry County Borough" ].

Definition is_northern_ireland_city (city : string) : bool :=
  bool_decide (city ∈ northern_ireland_cities).

Definition cities_with_coords : dict string (Q * Q) :=
  [ ("Worthing", (50.8200, -0.3700)); ("Wretham", (52.5000, 0.8333));
    ("Yalding", (51.2167, 0.4333)); ("Yeadon", (53.8667, -1.6833));
    ("York", (53.9599, -1.0873)) ]%Q.

(** The loop of [get_uk_cities_excluding_ni], over any table of cities. *)
Definition exclude_ni (cities : dict string (Q * Q)) : dict string (Q * Q) :=
  fold_left
    (fun uk_cities '(city, coords) =>
       if negb (is_northern_ireland_city city)
       then dict_set city coords uk_cities
       else uk_cities)
    cities [].

Definition get_uk_cities_excluding_ni : dict string (Q * Q) :=
  exclude_ni cities_with_coords.

(** *** iqair.py *)

(** What [requests.get(url)] gives: a response with its status code and
    its body as JSON ([None] when [response.json()] raises), or an
    exception of the connection. *)
Inductive reply :=
| Reply (status_code : Z) (body : option json)
| ConnectionError.

(** The requests made so far (by coordinates) and the seconds slept. *)
Record session := mkSession
  { requested : list (Q * Q);
    slept : Z }.

Section Network.
(** The reply to a request, given the requests made before it. *)
Variable network : list (Q * Q) -> Q * Q -> reply.

Definition get (coords : Q * Q) (s : session) : reply * session :=
  (network (requested s) coords, mkSession (requested s ++ [coords]) (slept s)).

Definition sleep (seconds : Z) (s : session) : session :=
  mkSession (requested s) (slept s + seconds).

(** The body of the loop of [extract_iqair_data]; [None] is an exception,
    which nothing catches. *)
Definition extract_city (st : session * dict string json)
    (entry : string * (Q * Q)) : option (session * dict string json) :=
  let '(s, air_quality_data) := st in
  let '(city, coords) := entry in
  let '(response, s) := get coords s in
  match response with
  | ConnectionError => None
  | Reply status_code body =>
      if status_code =? 200 then
        data ← body;
        Some (sleep 2 s, dict_set city data air_quality_data)
      else if status_code =? 429 then
        let s := sleep 60 s in
        let '(response, s) := get coords s in
        match response with
        | ConnectionError => None
        | Reply status_code body =>
            if status_code =? 200 then
              data ← body;
              Some (sleep 2 s, dict_set city data air_quality_data)
            else Some (sleep 2 s, air_quality_data)
        end
      else Some (sleep 2 s, air_quality_data)
  end.

Fixpoint extract_loop (cities : dict string (Q * Q))
    (st : session * dict string json) : option (session * dict string json) :=
  match cities with
  | [] => Some st
  | entry :: rest =>
      st ← extract_city st entry;
      extract_loop rest st
  end.

(** [extract_iqair_data], over the table of cities it is given. *)
Definition extract_iqair_data (cities : dict string (Q * Q)) (s : session)
    : option (session * dict string json) :=
  extract_loop (exclude_ni cities) (s, []).

End Network.

End Extract.

(* --------------------------------------------------------------------- *)
(** ** Transform stage: vocabulary of the properties                     *)
(* --------------------------------------------------------------------- *)
Module TransformProps.
Import Mapper Aggregator Merger.

(** The observations the aggregator groups: those with a region
    identifier. *)
Definition grouped (mapped_data : dict string Obs) : list Obs :=
  filter (fun data => is_Some (obs_region_id data)) mapped_data.*2.

(** The sum of the [cities_count] of the regions. *)
Definition total_cities (aggregated_data : dict string AggEntry) : Z :=
  foldr (fun e total => agg_cities_count (agg_data e.2) + total) 0 aggregated_data.

(** The sum of the sizes of the groups. *)
Definition total_members (regions : dict Z (list Obs)) : Z :=
  foldr (fun e total => Z.of_nat (length e.2) + total) 0 regions.

(** [co2_data[str(region_id)]["data"][0]["data"][0]], when every step of
    the path is there. *)
Definition first_point (co2_data : gmap string Co2Region) (region_id : Z)
    : option Co2Point :=
  co2_region_data ← co2_data !! str region_id;
  infos ← co2_region_list co2_region_data;
  co2_info ← head infos;
  points ← info_data co2_info;
  head points.

End TransformProps.

(* --------------------------------------------------------------------- *)
(** ** Sample documents                                                  *)
(* --------------------------------------------------------------------- *)
Module Samples.
Import Mapper Aggregator Merger.

(** An IQAir entry for a place in the Highlands that already carries a
    region name. *)
Definition highlands_obs : Obs :=
  mkObs (Some "success")
    (Some (mkObsData (Some "Yorkshire") None
             (Some (mkLocation (Some [-4.2; 57.5]%Q)))
             (Some (mkCurrent (Some [("hu", 81); ("tp", 9)]%Q)
                              (Some [("aqius", 21)]%Q))))).

(** A reply without a ["data"] member. *)
Definition bare_obs : Obs := mkObs (Some "fail") None.

(** A raw entry with coordinates only (central London, which the boxes
    place in East England). *)
Definition raw_obs : Obs :=
  mkObs (Some "success")
    (Some (mkObsData None None
             (Some (mkLocation (Some [-0.12; 51.5]%Q)))
             (Some (mkCurrent (Some [("hu", 1.234); ("ws", 3.09)]%Q)
                              (Some [("aqius", 40)]%Q))))).

(** Two boxes whose centres, (0, 2) and (0, -2), are equally far from the
    origin, which neither contains. *)
Definition twin_regions : dict string Bounds :=
  [ ("North", mkBounds (-1) 1 1 3); ("South", mkBounds (-1) 1 (-3) (-1)) ]%Q.

(** The aggregate of one region, and emissions for another region only. *)
Definition london_aggregated : dict string AggEntry :=
  [("13",
    mkAggEntry "success"
      (mkAggData 13 "London" 5 (mkAggCurrent [("hu", 50)]%Q [("aqius", 40)]%Q)))].

Definition scotland_co2 : gmap string Co2Region :=
  {[ "1" := mkCo2Region
              (Some [mkCo2Info
                       (Some [mkCo2Point (Some (JNum 42)) (Some (JArr []))
                                (Some (JStr "2024-01-01T00:00Z"))
                                (Some (JStr "2024-01-01T00:30Z"))])]) ]}.

(** Emissions for London whose data point has an intensity and nothing
    else. *)
Definition london_co2 : gmap string Co2Region :=
  {[ "13" := mkCo2Region
               (Some [mkCo2Info
                        (Some [mkCo2Point (Some (JNum 120)) None None None])]) ]}.

(** Five observations resolved to London: three report a humidity, two
    report no humidity at all. *)
Definition humidity_obs (hu : option Q) : Obs :=
  mkObs (Some "success")
    (Some (mkObsData (Some "London") (Some 13) None
             (Some (mkCurrent
                      (Some match hu with Some h => [("hu", h)] | None => [] end)
                      None)))).

Definition five_cities : dict string Obs :=
  [ ("Camden", humidity_obs (Some 40%Q)); ("Ealing", humidity_obs (Some 60%Q));
    ("Harrow", humidity_obs (Some 50%Q)); ("Sutton", humidity_obs None);
    ("Barnet", humidity_obs None) ].

(** A directory with the three artefacts of a transform and a history of
    three merged results. *)
Definition after_transform : gmap string Loader.content :=
  {[ "mapped.json" := Loader.Json (JObj []);
     "iqair_mapped.json" := Loader.Json (JObj []);
     "merged_data.json" := Loader.Json (JObj []);
     "historical_merged_data.json" := Loader.Json (JArr [JNum 1; JNum 2; JNum 3]) ]}.

(** A rate-limited service: the first request of each pair is refused with
    status 429, the retry is answered. *)
Definition rate_limited (before : list (Q * Q)) (coords : Q * Q) : Extract.reply :=
  if Nat.even (length before) then Extract.Reply 429 None
  else Extract.Reply 200 (Some (JObj [("status", JStr "success")])).

(** An upstream that is down: every stage raises after two seconds. *)
Definition upstream_down (s : Pipeline.stage) (t : Z) : Pipeline.stage_outcome * Z :=
  (Pipeline.Fails Pipeline.OtherException, 2).

(** Every stage completes in three seconds. *)
Definition all_fine (s : Pipeline.stage) (t : Z) : Pipeline.stage_outcome * Z :=
  (Pipeline.Completes, 3).

(** Extraction works, the transformation raises after one second. *)
Definition transform_down (s : Pipeline.stage) (t : Z) : Pipeline.stage_outcome * Z :=
  match s with
  | Pipeline.Extract => (Pipeline.Completes, 3)
  | _ => (Pipeline.Fails Pipeline.OtherException, 1)
  end.

(** The operator interrupts the transformation. *)
Definition interrupted (s : Pipeline.stage) (t : Z) : Pipeline.stage_outcome * Z :=
  match s with
  | Pipeline.Extract => (Pipeline.Completes, 3)
  | _ => (Pipeline.Fails Pipeline.KeyboardInterrupt, 1)
  end.

(** The process at second 10000, after four failed runs in a row. *)
Definition four_failures : Pipeline.world :=
  Pipeline.mkWorld 10000 (Pipeline.mkStats 4 0 4 4 (Some 0) None) [].

End Samples.

(* ===================================================================== *)
(** * Part II: properties                                                *)
(* ===================================================================== *)

(** ** Rational comparisons *)
Section QOrder.
Import Mapper.

Lemma Qlt_bool_iff (x y : Q) : Qlt_bool x y = true <-> (x < y)%Q.
Proof.
  unfold Qlt_bool. rewrite negb_true_iff. split.
  - intros Hb. apply Qnot_le_lt. intros Hle.
    apply Qle_bool_iff in Hle. congruence.
  - intros Hlt. destruct (Qle_bool y x) eqn:E; [|done].
    apply Qle_bool_iff in E. exfalso. by apply (Qlt_not_le x y).
Qed.

Lemma Qlt_bool_false_iff (x y : Q) : Qlt_bool x y = false <-> (y <= x)%Q.
Proof.
  unfold Qlt_bool. rewrite negb_false_iff. apply Qle_bool_iff.
Qed.

End QOrder.

(** ** mapper.py: the coordinate fallback *)
Section Coordinates.
Import Mapper.
Implicit Types (regions : dict string Bounds) (lat lon : Q).

Lemma first_containing_Some regions lat lon name :
  first_containing regions lat lon = Some name ->
  exists pre bounds post,
    regions = pre ++ (name, bounds) :: post
    /\ in_box bounds lat lon = true
    /\ Forall (fun e => in_box e.2 lat lon = false) pre.
Proof.
  induction regions as [|[n b] rest IH]; simpl; [done|].
  destruct (in_box b lat lon) eqn:Hbox.
  - intros [= <-]. exists [], b, rest. by split_and!.
  - intros Hrest. destruct (IH Hrest) as (pre & b' & post & -> & Hin & Hpre).
    exists ((n, b) :: pre), b', post. split_and!; [done|done|].
    by constructor.
Qed.

Lemma first_containing_None regions lat lon :
  first_containing regions lat lon = None ->
  Forall (fun e => in_box e.2 lat lon = false) regions.
Proof.
  induction regions as [|[n b] rest IH]; simpl; [by constructor|].
  destruct (in_box b lat lon) eqn:Hbox; [done|].
  intros Hrest. constructor; auto.
Qed.

Lemma dist_ltb_trans_l lat lon b e m :
  (sq_distance lat lon b < sq_distance lat lon e)%Q ->
  dist_ltb (distance lat lon e) m = true ->
  dist_ltb (distance lat lon b) m = true.
Proof.
  destruct m as [y|]; simpl; [|done].
  rewrite !Qlt_bool_iff. apply Qlt_trans.
Qed.

Lemma dist_ltb_trans_r lat lon b e m :
  dist_ltb (distance lat lon b) m = true ->
  dist_ltb (distance lat lon e) m = false ->
  (sq_distance lat lon b < sq_distance lat lon e)%Q.
Proof.
  destruct m as [y|]; simpl; [|done].
  rewrite Qlt_bool_iff, Qlt_bool_false_iff. apply Qlt_le_trans.
Qed.

(** The second loop keeps its state, or ends on the first entry of least
    distance, which is then strictly closer than the initial bound. *)
Lemma closest_loop_spec regions lat lon m c :
  (closest_loop regions lat lon (m, c) = (m, c)
   /\ Forall (fun e => dist_ltb (distance lat lon e.2) m = false) regions)
  \/ (exists pre name bounds post,
        regions = pre ++ (name, bounds) :: post
        /\ closest_loop regions lat lon (m, c) = (distance lat lon bounds, Some name)
        /\ dist_ltb (distance lat lon bounds) m = true
        /\ Forall (fun e => (sq_distance lat lon bounds < sq_distance lat lon e.2)%Q) pre
        /\ Forall (fun e => (sq_distance lat lon bounds <= sq_distance lat lon e.2)%Q) post).
Proof.
  revert m c. induction regions as [|[n b] rest IH]; intros m c.
  { left. split; [done | constructor]. }
  change (closest_loop ((n, b) :: rest) lat lon (m, c))
    with (closest_loop rest lat lon (closest_step lat lon (m, c) (n, b))).
  unfold closest_step; cbn [fst snd].
  destruct (dist_ltb (distance lat lon b) m) eqn:Hlt.
  - right. destruct (IH (distance lat lon b) (Some n))
      as [[Heq Hall] | (pre & n' & b' & post & -> & Heq & Hlt' & Hpre & Hpost)].
    + exists [], n, b, rest. split_and!; [done|done|done|constructor|].
      eapply Forall_impl; [exact Hall|]. intros e He. simpl in He.
      by apply Qlt_bool_false_iff.
    + simpl in Hlt'. apply Qlt_bool_iff in Hlt'.
      exists ((n, b) :: pre), n', b', post.
      split_and!; [done|done| |by constructor|done].
      by eapply dist_ltb_trans_l.
  - destruct (IH m c)
      as [[Heq Hall] | (pre & n' & b' & post & -> & Heq & Hlt' & Hpre & Hpost)].
    + left. split; [done|by constructor].
    + right. exists ((n, b) :: pre), n', b', post.
      split_and!; [done|done|done| |done].
      constructor; [|done]. by eapply dist_ltb_trans_r.
Qed.


(** A point on the common edge of two boxes (latitude 56.5) belongs to the
    first-declared one. *)
Example get_region_on_shared_edge :
  get_region_from_coordinates 56.5 (-4) = Some "North Scotland".
Proof. vm_compute. reflexivity. Qed.

(** Far to the south-east of every box, the nearest centre decides. *)
Example get_region_outside_every_box :
  first_containing UK_REGIONS 40 20 = None
  /\ get_region_from_coordinates 40 20 = Some "South East England".
Proof. split; vm_compute; reflexivity. Qed.

(** Two centres at the same distance: the first-declared region stays. *)
Example closest_loop_tie :
  first_containing Samples.twin_regions 0 0 = None
  /\ (sq_distance 0 0 (mkBounds (-1) 1 1 3)
      == sq_distance 0 0 (mkBounds (-1) 1 (-3) (-1)))%Q
  /\ (closest_loop Samples.twin_regions 0 0 (Inf, None)).2 = Some "North".
Proof. split_and!; vm_compute; reflexivity. Qed.

End Coordinates.

(** ** Insertion-ordered dictionaries *)
Section DictFacts.
Context {K V : Type} `{EqDecision K}.
Implicit Types (k : K) (v : V) (d : dict K V).

Lemma dict_get_elem_of k v d : dict_get k d = Some v -> (k, v) ∈ d.
Proof.
  induction d as [|[k' v'] d IH]; simpl; [done|].
  case_decide as Hk.
  - intros [= ->]. subst. apply list_elem_of_here.
  - intros Hget. apply list_elem_of_further. auto.
Qed.

Lemma dict_get_None k d : dict_get k d = None <-> k ∉ dict_keys d.
Proof.
  unfold dict_keys. induction d as [|[k' v'] d IH]; simpl.
  - split; [intros _; apply not_elem_of_nil | done].
  - rewrite not_elem_of_cons. case_decide as Hk.
    + split; [done | intros [Hne _]; by subst].
    + rewrite IH. split; [by intros ?; split; [congruence|] | by intros [_ ?]].
Qed.

Lemma dict_get_is_Some k d : is_Some (dict_get k d) <-> k ∈ dict_keys d.
Proof.
  destruct (dict_get k d) as [v|] eqn:Hget.
  - split; [intros _ | by eauto].
    destruct (decide (k ∈ dict_keys d)) as [|Hn]; [done|].
    apply dict_get_None in Hn. congruence.
  - split; [by intros [? ?] | intros Hin]. by apply dict_get_None in Hget.
Qed.

Lemma dict_get_NoDup k v d :
  NoDup (dict_keys d) -> (k, v) ∈ d -> dict_get k d = Some v.
Proof.
  unfold dict_keys. induction d as [|[k' v'] d IH]; simpl.
  - intros _ Hin. by apply elem_of_nil in Hin.
  - intros Hnd Hin. apply NoDup_cons in Hnd as [Hk' Hnd].
    apply elem_of_cons in Hin as [[= -> ->] | Hin].
    + by rewrite decide_True.
    + rewrite decide_False; [by apply IH|].
      intros ->. apply Hk'. apply list_elem_of_fmap. by exists (k, v).
Qed.

Lemma dict_get_set k k' v d :
  dict_get k' (dict_set k v d) = if decide (k = k') then Some v else dict_get k' d.
Proof.
  induction d as [|[k0 v0] d IH]; simpl.
  - by destruct (decide (k = k')).
  - destruct (decide (k0 = k)) as [->|Hne]; simpl.
    + by destruct (decide (k = k')).
    + destruct (decide (k0 = k')) as [->|Hne'].
      * by rewrite decide_False by congruence.
      * apply IH.
Qed.

Lemma dict_set_fresh k v d : k ∉ dict_keys d -> dict_set k v d = d ++ [(k, v)].
Proof.
  unfold dict_keys. induction d as [|[k0 v0] d IH]; simpl; [done|].
  rewrite not_elem_of_cons. intros [Hne Hnin].
  rewrite decide_False by congruence. by rewrite IH.
Qed.

Lemma dict_keys_set k v d :
  dict_keys (dict_set k v d)
  = if decide (k ∈ dict_keys d) then dict_keys d else dict_keys d ++ [k].
Proof.
  unfold dict_keys. induction d as [|[k0 v0] d IH].
  - destruct (decide (k ∈ (@nil (K * V)).*1)) as [Hin|_]; [|done].
    by apply elem_of_nil in Hin.
  - cbn [dict_set]. destruct (decide (k0 = k)) as [->|Hne].
    + rewrite decide_True; [done | apply list_elem_of_here].
    + rewrite fmap_cons, IH. cbn [fst].
      destruct (decide (k ∈ d.*1)) as [Hin|Hnin].
      * rewrite decide_True; [done | by apply list_elem_of_further].
      * rewrite decide_False; [done|].
        rewrite fmap_cons, not_elem_of_cons. split; [simpl; congruence | done].
Qed.

Lemma dict_set_NoDup k v d : NoDup (dict_keys d) -> NoDup (dict_keys (dict_set k v d)).
Proof.
  intros Hnd. rewrite dict_keys_set. case_decide as Hin; [done|].
  apply NoDup_app. split_and!; [done| |apply NoDup_singleton].
  intros x Hx Hx'. apply list_elem_of_singleton in Hx'. by subst.
Qed.

Lemma dict_set_elem_of k v k' v' d :
  (k', v') ∈ dict_set k v d -> (k', v') = (k, v) \/ (k', v') ∈ d.
Proof.
  induction d as [|[k0 v0] d IH]; simpl.
  - intros Hin. apply list_elem_of_singleton in Hin. by left.
  - destruct (decide (k0 = k)) as [->|Hne].
    + intros Hin. apply elem_of_cons in Hin as [Heq | Hin]; [by left|].
      right. by apply list_elem_of_further.
    + intros Hin. apply elem_of_cons in Hin as [Heq | Hin].
      * right. rewrite Heq. apply list_elem_of_here.
      * destruct (IH Hin) as [?|?]; [by left|]. right. by apply list_elem_of_further.
Qed.

End DictFacts.

(** ** Decimal numerals *)
Section Numerals.

Lemma to_int_neither_nil (n : Z) :
  Z.to_int n <> Decimal.Pos Decimal.Nil /\ Z.to_int n <> Decimal.Neg Decimal.Nil.
Proof.
  destruct n as [|p|p]; simpl; split; try discriminate.
  - intros [= Hp]. by apply (DecimalPos.Unsigned.to_uint_nonnil p).
  - intros [= Hp]. by apply (DecimalPos.Unsigned.to_uint_nonnil p).
Qed.

(** [int(str(n)) == n] *)
Lemma int_str (n : Z) : int (str n) = Some n.
Proof.
  unfold int, str. destruct (to_int_neither_nil n) as [Hpos Hneg].
  rewrite NilZero.isi by done. simpl. by rewrite DecimalZ.of_to.
Qed.

Lemma str_inj (n m : Z) : str n = str m -> n = m.
Proof.
  intros Heq. apply (f_equal int) in Heq. rewrite !int_str in Heq. congruence.
Qed.

End Numerals.

(** ** mapper.py: resolution *)
Section Resolution.
Import Mapper.
Implicit Types (city region : string) (data obs : Obs)
  (table : gmap string string) (iqair_data : dict string Obs).

Lemma truthy_str_Some (s : string) : truthy_str (Some s) = true <-> s <> "".
Proof.
  unfold truthy_str. rewrite negb_true_iff. apply String.eqb_neq.
Qed.

Lemma truthy_int_Some (n : Z) : truthy_int (Some n) = true <-> n <> 0.
Proof.
  unfold truthy_int. rewrite negb_true_iff. apply Z.eqb_neq.
Qed.

(** Every identifier of the catalogue lies in 1..14. *)
Lemma region_id_range region region_id :
  REGION_NAME_TO_ID !! region = Some region_id -> 1 <= region_id <= 14.
Proof.
  unfold REGION_NAME_TO_ID. intros Hin%elem_of_list_to_map_2.
  repeat (apply elem_of_cons in Hin as [[= -> ->] | Hin]; [lia|]).
  by apply elem_of_nil in Hin.
Qed.

(** What [map_city] answers, in terms of the resolved name. *)
Lemma map_city_Some city data table obs :
  map_city city data table = Some obs <->
  exists region region_id,
    resolve_region city data table = Some region
    /\ region <> ""
    /\ REGION_NAME_TO_ID !! region = Some region_id
    /\ obs = attach region region_id data.
Proof.
  unfold map_city. split.
  - destruct (resolve_region city data table) as [region|] eqn:Hres; simpl; [|done].
    destruct (String.eqb region "") eqn:Hempty; simpl; [done|].
    apply String.eqb_neq in Hempty.
    destruct (REGION_NAME_TO_ID !! region) as [region_id|] eqn:Hid; simpl; [|done].
    destruct (region_id =? 0); simpl; [done|].
    intros [= <-]. by exists region, region_id.
  - intros (region & region_id & -> & Hne & Hid & ->). simpl.
    apply String.eqb_neq in Hne. rewrite Hne. simpl. rewrite Hid. simpl.
    apply region_id_range in Hid.
    destruct (region_id =? 0) eqn:Hz; [lia|done].
Qed.

Lemma map_city_None city data table :
  map_city city data table = None <->
  truthy_str (resolve_region city data table) = false
  \/ exists region,
       resolve_region city data table = Some region
       /\ REGION_NAME_TO_ID !! region = None.
Proof.
  unfold map_city.
  destruct (resolve_region city data table) as [region|] eqn:Hres; simpl.
  - destruct (String.eqb region "") eqn:Hempty; simpl.
    { split; [by left | done]. }
    destruct (REGION_NAME_TO_ID !! region) as [region_id|] eqn:Hid; simpl.
    + pose proof (region_id_range _ _ Hid) as Hrange.
      destruct (region_id =? 0) eqn:Hz; [lia|]. simpl.
      split; [done|]. intros [? | (r & [= <-] & Hnone)]; congruence.
    + split; [|done]. intros _. right. by exists region.
  - split; [by left | done].
Qed.

(** C2 (as amended) -- when the table maps the location name to a
    non-empty region name, resolution returns exactly that name whatever
    region field or coordinates the observation carries, and, the name
    being in the catalogue, the observation is emitted with that region. *)
Theorem resolve_region_lookup_first city data table region :
  table !! city = Some region ->
  region <> "" ->
  resolve_region city data table = Some region
  /\ forall region_id,
       REGION_NAME_TO_ID !! region = Some region_id ->
       map_city city data table = Some (attach region region_id data).
Proof.
  intros Hlookup Hne.
  assert (resolve_region city data table = Some region) as Hres.
  { unfold resolve_region. rewrite Hlookup. cbv zeta.
    apply truthy_str_Some in Hne. rewrite Hne. cbn [negb]. by rewrite Hne. }
  split; [done|]. intros region_id Hid.
  apply map_city_Some. by exists region, region_id.
Qed.

Lemma resolve_region_lookup_first_witness :
  resolve_region "Inverness" Samples.highlands_obs {[ "Inverness" := "London" ]}
    = Some "London"
  /\ forall region_id,
       REGION_NAME_TO_ID !! "London" = Some region_id ->
       map_city "Inverness" Samples.highlands_obs {[ "Inverness" := "London" ]}
         = Some (attach "London" region_id Samples.highlands_obs).
Proof.
  apply (resolve_region_lookup_first "Inverness" Samples.highlands_obs
           {[ "Inverness" := "London" ]} "London").
  - reflexivity.
  - discriminate.
Defined.

(** C2 (as stated) fails: a table entry with an empty region name is
    passed over, and the region field of the observation is used. *)
Lemma resolve_region_lookup_empty_name :
  ~ (forall city data table region,
       table !! city = Some region ->
       resolve_region city data table = Some region).
Proof.
  intros Hclaim.
  specialize (Hclaim "Inverness" Samples.highlands_obs {[ "Inverness" := "" ]} ""
                eq_refl).
  vm_compute in Hclaim. discriminate.
Qed.

(** The body of the loop of [map_cities_to_regions]. *)
Lemma map_cities_to_regions_cons city data iqair_data table (acc : dict string Obs) :
  fold_left
    (fun mapped_data '(city, data) =>
       match map_city city data table with
       | Some data' => dict_set city data' mapped_data
       | None => mapped_data
       end)
    ((city, data) :: iqair_data) acc
  = fold_left
      (fun mapped_data '(city, data) =>
         match map_city city data table with
         | Some data' => dict_set city data' mapped_data
         | None => mapped_data
         end)
      iqair_data
      (match map_city city data table with
       | Some data' => dict_set city data' acc
       | None => acc
       end).
Proof. reflexivity. Qed.

(** Whatever the loop holds at the end was there at the start or was
    accepted from the input under the same name. *)
Lemma map_loop_elem_of iqair_data table (acc : dict string Obs) city obs :
  (city, obs) ∈
    fold_left
      (fun mapped_data '(city, data) =>
         match map_city city data table with
         | Some data' => dict_set city data' mapped_data
         | None => mapped_data
         end)
      iqair_data acc ->
  (city, obs) ∈ acc
  \/ exists data, (city, data) ∈ iqair_data /\ map_city city data table = Some obs.
Proof.
  revert acc. induction iqair_data as [|[c d] rest IH]; intros acc; [by left|].
  rewrite map_cities_to_regions_cons. intros Hin.
  destruct (IH _ Hin) as [Hacc | (data & Hdata & Hmap)].
  - destruct (map_city c d table) as [d'|] eqn:Hcd; [|by left].
    apply dict_set_elem_of in Hacc as [[= -> ->] | Hacc]; [|by left].
    right. exists d. split; [apply list_elem_of_here | done].
  - right. exists data. split; [by apply list_elem_of_further | done].
Qed.

Lemma attach_fields region region_id data :
  match obs_data data with
  | Some _ =>
      obs_region (attach region region_id data) = Some region
      /\ obs_region_id (attach region region_id data) = Some region_id
  | None => attach region region_id data = data
  end.
Proof.
  unfold attach, obs_region, obs_region_id.
  by destruct (obs_data data) as [d|] eqn:Hd; simpl; rewrite ?Hd.
Qed.

(** C8 (as amended) -- every observation of the output comes from the
    input under the same name, resolved to a region name that has an
    identifier in the catalogue (one of 1..14); when the observation has a
    ["data"] member it carries that name and that identifier, and when it
    has none it is emitted as it came, without region fields.  A name all
    of whose input observations resolve to no region name, or to a name
    outside the catalogue, is absent from the output. *)
Theorem map_cities_to_regions_output iqair_data table city :
  (forall obs,
     dict_get city (map_cities_to_regions iqair_data table) = Some obs ->
     exists data region region_id,
       (city, data) ∈ iqair_data
       /\ resolve_region city data table = Some region
       /\ REGION_NAME_TO_ID !! region = Some region_id
       /\ 1 <= region_id <= 14
       /\ obs = attach region region_id data
       /\ match obs_data data with
          | Some _ =>
              obs_region obs = Some region /\ obs_region_id obs = Some region_id
          | None => obs = data
          end)
  /\ ((forall data,
         (city, data) ∈ iqair_data ->
         truthy_str (resolve_region city data table) = false
         \/ exists region,
              resolve_region city data table = Some region
              /\ REGION_NAME_TO_ID !! region = None) ->
      dict_get city (map_cities_to_regions iqair_data table) = None).
Proof.
  split.
  - intros obs Hget. apply dict_get_elem_of in Hget.
    apply map_loop_elem_of in Hget as [Hnil | (data & Hdata & Hmap)].
    { by apply elem_of_nil in Hnil. }
    apply map_city_Some in Hmap as (region & region_id & Hres & Hne & Hid & ->).
    pose proof (region_id_range _ _ Hid) as Hrange.
    exists data, region, region_id. split_and!; try done; try lia.
    apply attach_fields.
  - intros Hdrop.
    destruct (dict_get city (map_cities_to_regions iqair_data table))
      as [obs|] eqn:Hget; [|done].
    apply dict_get_elem_of in Hget.
    apply map_loop_elem_of in Hget as [Hnil | (data & Hdata & Hmap)].
    { by apply elem_of_nil in Hnil. }
    apply Hdrop, map_city_None in Hdata. congruence.
Qed.

(** C8 (as stated) fails: a reply without a ["data"] member whose name the
    table resolves is emitted without any region identifier. *)
Lemma map_cities_to_regions_bare_entry :
  ~ (forall iqair_data table city obs,
       dict_get city (map_cities_to_regions iqair_data table) = Some obs ->
       exists region region_id,
         obs_region_id obs = Some region_id
         /\ REGION_NAME_TO_ID !! region = Some region_id).
Proof.
  intros Hclaim.
  destruct (Hclaim [("Inverness", Samples.bare_obs)]
              {[ "Inverness" := "North Scotland" ]} "Inverness" Samples.bare_obs)
    as (region & region_id & Hid & _).
  - vm_compute. reflexivity.
  - vm_compute in Hid. discriminate.
Qed.

Lemma resolve_region_attach city data table region region_id :
  resolve_region city data table = Some region ->
  region <> "" ->
  resolve_region city (attach region region_id data) table = Some region.
Proof.
  intros Hres Hne. unfold attach.
  destruct (obs_data data) as [d|] eqn:Hd; [|done].
  apply truthy_str_Some in Hne.
  unfold resolve_region in *. cbv zeta in *.
  destruct (truthy_str (table !! city)) eqn:Ht; cbn [negb] in *.
  - by rewrite Ht in *.
  - unfold obs_region at 1. cbn [obs_data od_region]. rewrite Hne. done.
Qed.

Lemma attach_attach region region_id data :
  attach region region_id (attach region region_id data) = attach region region_id data.
Proof.
  unfold attach. by destruct (obs_data data) as [d|] eqn:Hd; simpl; rewrite ?Hd.
Qed.

Lemma map_city_stable city data table obs :
  map_city city data table = Some obs ->
  resolve_region city obs table = resolve_region city data table
  /\ map_city city obs table = Some obs.
Proof.
  intros Hmap.
  apply map_city_Some in Hmap as (region & region_id & Hres & Hne & Hid & ->).
  pose proof (resolve_region_attach _ _ _ _ region_id Hres Hne) as Hres'.
  split; [congruence|].
  apply map_city_Some. exists region, region_id.
  split_and!; try done. by rewrite attach_attach.
Qed.

(** C9 -- an observation that a resolution has emitted was given a region
    name and that name's identifier; resolving it again with the same
    table yields the same region name and the same identifier, and emits
    the observation unchanged, region fields included. *)
Theorem map_city_idempotent city data table obs :
  map_city city data table = Some obs ->
  exists region region_id,
    resolve_region city data table = Some region
    /\ REGION_NAME_TO_ID !! region = Some region_id
    /\ resolve_region city obs table = Some region
    /\ map_city city obs table = Some (attach region region_id obs)
    /\ attach region region_id obs = obs
    /\ (is_Some (obs_data obs) ->
        obs_region obs = Some region /\ obs_region_id obs = Some region_id).
Proof.
  intros Hmap.
  apply map_city_Some in Hmap as (region & region_id & Hres & Hne & Hid & ->).
  pose proof (resolve_region_attach _ _ _ _ region_id Hres Hne) as Hres'.
  exists region, region_id. split_and!; try done.
  - apply map_city_Some. by exists region, region_id.
  - apply attach_attach.
  - intros [d Hd]. pose proof (attach_fields region region_id data) as Hfields.
    destruct (obs_data data) eqn:Hdata; [done|].
    rewrite Hfields in Hd. congruence.
Qed.

Lemma map_city_idempotent_witness :
  exists region region_id,
    resolve_region "Camden" Samples.raw_obs ∅ = Some region
    /\ REGION_NAME_TO_ID !! region = Some region_id
    /\ resolve_region "Camden" (attach "East England" 10 Samples.raw_obs) ∅
       = Some region
    /\ map_city "Camden" (attach "East England" 10 Samples.raw_obs) ∅
       = Some (attach region region_id (attach "East England" 10 Samples.raw_obs))
    /\ attach region region_id (attach "East England" 10 Samples.raw_obs)
       = attach "East England" 10 Samples.raw_obs
    /\ (is_Some (obs_data (attach "East England" 10 Samples.raw_obs)) ->
        obs_region (attach "East England" 10 Samples.raw_obs) = Some region
        /\ obs_region_id (attach "East England" 10 Samples.raw_obs) = Some region_id).
Proof.
  apply (map_city_idempotent "Camden" Samples.raw_obs ∅
           (attach "East England" 10 Samples.raw_obs)).
  vm_compute. reflexivity.
Defined.

(** *** The whole mapping, resolved twice *)

Lemma map_loop_NoDup iqair_data table (acc : dict string Obs) :
  NoDup (dict_keys acc) ->
  NoDup (dict_keys
           (fold_left
              (fun mapped_data '(city, data) =>
                 match map_city city data table with
                 | Some data' => dict_set city data' mapped_data
                 | None => mapped_data
                 end)
              iqair_data acc)).
Proof.
  revert acc. induction iqair_data as [|[c d] rest IH]; intros acc Hnd; [done|].
  rewrite map_cities_to_regions_cons. apply IH.
  destruct (map_city c d table); [by apply dict_set_NoDup | done].
Qed.

(** A mapping whose entries are all emitted unchanged is copied. *)
Lemma map_loop_fixed (mapped : dict string Obs) table (acc : dict string Obs) :
  NoDup (dict_keys acc ++ dict_keys mapped) ->
  (forall city obs, (city, obs) ∈ mapped -> map_city city obs table = Some obs) ->
  fold_left
    (fun mapped_data '(city, data) =>
       match map_city city data table with
       | Some data' => dict_set city data' mapped_data
       | None => mapped_data
       end)
    mapped acc
  = acc ++ mapped.
Proof.
  revert acc. induction mapped as [|[c o] rest IH]; intros acc Hnd Hfixed.
  { by rewrite app_nil_r. }
  rewrite map_cities_to_regions_cons.
  rewrite (Hfixed c o) by apply list_elem_of_here.
  assert (c ∉ dict_keys acc) as Hfresh.
  { apply NoDup_app in Hnd as (_ & Hdisj & _). intros Hin.
    apply (Hdisj _ Hin). apply list_elem_of_here. }
  rewrite (dict_set_fresh _ _ _ Hfresh). rewrite IH.
  - by rewrite <- app_assoc.
  - unfold dict_keys in *. by rewrite fmap_app, <- app_assoc.
  - intros city obs Hin. apply Hfixed. by apply list_elem_of_further.
Qed.

(** Resolving the output of a resolution, with the same table, returns it
    unchanged. *)
Lemma map_cities_to_regions_idempotent iqair_data table :
  map_cities_to_regions (map_cities_to_regions iqair_data table) table
  = map_cities_to_regions iqair_data table.
Proof.
  unfold map_cities_to_regions at 1.
  rewrite map_loop_fixed; [done| |].
  - apply (map_loop_NoDup iqair_data table []). apply NoDup_nil_2.
  - intros city obs Hin.
    apply map_loop_elem_of in Hin as [Hnil | (data & _ & Hmap)].
    { by apply elem_of_nil in Hnil. }
    by apply map_city_stable in Hmap as [_ ?].
Qed.

End Resolution.

(** ** aggregator.py *)
Section Aggregation.
Import Mapper Aggregator.
Implicit Types (mapped_data : dict string Obs) (cities_data : list Obs)
  (regions : dict Z (list Obs)) (g : metric_group).

Lemma partition_app region_id mapped_data mapped_data' :
  partition region_id (mapped_data ++ mapped_data')
  = partition region_id mapped_data ++ partition region_id mapped_data'.
Proof. unfold partition. by rewrite fmap_app, filter_app. Qed.

Lemma partition_singleton region_id city data :
  partition region_id [(city, data)]
  = if decide (obs_region_id data = Some region_id) then [data] else [].
Proof. unfold partition. simpl. rewrite filter_cons, filter_nil. done. Qed.

Lemma group_entry_app_singleton cities_data data :
  group_entry (cities_data ++ [data]) = Some (cities_data ++ [data]).
Proof. by destruct cities_data. Qed.

Lemma group_append_get region_id data regions region_id' :
  dict_get region_id' (group_append region_id data regions)
  = if decide (region_id = region_id')
    then Some (default [] (dict_get region_id regions) ++ [data])
    else dict_get region_id' regions.
Proof.
  unfold group_append.
  destruct (dict_get region_id regions) as [cities_data|] eqn:Hget;
    by rewrite dict_get_set.
Qed.

Lemma group_append_NoDup region_id data regions :
  NoDup (dict_keys regions) -> NoDup (dict_keys (group_append region_id data regions)).
Proof.
  unfold group_append.
  destruct (dict_get region_id regions); apply dict_set_NoDup.
Qed.

(** The first loop, started on the groups of the entries already seen. *)
Lemma group_loop_spec rest seen regions :
  NoDup (dict_keys regions) ->
  (forall region_id, dict_get region_id regions = group_entry (partition region_id seen)) ->
  let regions' :=
    fold_left
      (fun regions '(_, data) =>
         match obs_region_id data with
         | Some region_id => group_append region_id data regions
         | None => regions
         end)
      rest regions in
  NoDup (dict_keys regions')
  /\ forall region_id,
       dict_get region_id regions' = group_entry (partition region_id (seen ++ rest)).
Proof.
  revert seen regions. induction rest as [|[city data] rest IH];
    intros seen regions Hnd Hget; simpl.
  { rewrite app_nil_r. by split. }
  replace (seen ++ (city, data) :: rest) with ((seen ++ [(city, data)]) ++ rest)
    by (by rewrite <- app_assoc).
  apply IH.
  - destruct (obs_region_id data); [by apply group_append_NoDup | done].
  - intros region_id. rewrite partition_app, partition_singleton.
    destruct (obs_region_id data) as [rid|] eqn:Hrid.
    + rewrite group_append_get. destruct (decide (rid = region_id)) as [->|Hne].
      * rewrite decide_True by done. rewrite Hget.
        rewrite group_entry_app_singleton.
        by destruct (partition region_id seen).
      * rewrite decide_False by congruence. by rewrite app_nil_r.
    + rewrite decide_False by done. by rewrite app_nil_r.
Qed.

Lemma group_by_region_spec mapped_data :
  NoDup (dict_keys (group_by_region mapped_data))
  /\ forall region_id,
       dict_get region_id (group_by_region mapped_data)
       = group_entry (partition region_id mapped_data).
Proof.
  apply (group_loop_spec mapped_data [] []); [apply NoDup_nil_2 | done].
Qed.

Lemma group_by_region_elem_of mapped_data region_id cities_data :
  (region_id, cities_data) ∈ group_by_region mapped_data ->
  cities_data = partition region_id mapped_data /\ cities_data <> [].
Proof.
  destruct (group_by_region_spec mapped_data) as [Hnd Hget].
  intros Hin. apply (dict_get_NoDup _ _ _ Hnd) in Hin.
  rewrite Hget in Hin.
  destruct (partition region_id mapped_data) eqn:Hp; simpl in Hin; [done|].
  by injection Hin as <-.
Qed.

(** *** Collecting the values of a partition *)

Lemma dict_get_tabulate {A} (f : string -> A) (keys : list string) (key : string) :
  dict_get key (map (fun k => (k, f k)) keys)
  = if decide (key ∈ keys) then Some (f key) else None.
Proof.
  induction keys as [|k keys IH].
  - case_decide as Hin; [by apply elem_of_nil in Hin | done].
  - cbn [map dict_get]. destruct (decide (k = key)) as [->|Hne].
    + rewrite decide_True; [done | apply list_elem_of_here].
    + rewrite IH. destruct (decide (key ∈ keys)) as [Hin|Hnin].
      * rewrite decide_True; [done | by apply list_elem_of_further].
      * rewrite decide_False; [done|].
        rewrite not_elem_of_cons. split; [congruence | done].
Qed.

Lemma collect_from_tabulate source (f : string -> list Q) (keys : list string) :
  collect_from source (map (fun k => (k, f k)) keys)
  = map (fun k => (k, f k ++ option_list (dict_get k source))) keys.
Proof.
  unfold collect_from. rewrite map_map. apply map_ext. intros k.
  destruct (dict_get k source); simpl; by rewrite ?app_nil_r.
Qed.

Lemma collect_city_tabulate (fw fp : string -> list Q) (wkeys pkeys : list string) city_data :
  collect_city (map (fun k => (k, fw k)) wkeys, map (fun k => (k, fp k)) pkeys) city_data
  = (map (fun k => (k, fw k ++ option_list (own_value Weather k city_data))) wkeys,
     map (fun k => (k, fp k ++ option_list (own_value Pollution k city_data))) pkeys).
Proof.
  assert (forall (f : string -> list Q) keys,
            map (fun k => (k, f k)) keys = map (fun k => (k, f k ++ [])) keys) as Hnil.
  { intros f keys. apply map_ext. intros k. by rewrite app_nil_r. }
  unfold collect_city, own_value, current_metrics.
  destruct (obs_data city_data) as [d|]; cbn [fst snd].
  - destruct (od_current d) as [current|]; cbn [fst snd].
    + destruct (cur_weather current), (cur_pollution current);
        rewrite ?collect_from_tabulate; f_equal; apply Hnil.
    + f_equal; apply Hnil.
  - f_equal; apply Hnil.
Qed.

Lemma contributing_values_cons g key city_data cities_data :
  contributing_values g key (city_data :: cities_data)
  = option_list (own_value g key city_data) ++ contributing_values g key cities_data.
Proof.
  unfold contributing_values. simpl. by destruct (own_value g key city_data).
Qed.

Lemma collect_loop_tabulate cities_data (fw fp : string -> list Q) (wkeys pkeys : list string) :
  fold_left collect_city cities_data
    (map (fun k => (k, fw k)) wkeys, map (fun k => (k, fp k)) pkeys)
  = (map (fun k => (k, fw k ++ contributing_values Weather k cities_data)) wkeys,
     map (fun k => (k, fp k ++ contributing_values Pollution k cities_data)) pkeys).
Proof.
  revert fw fp. induction cities_data as [|city_data rest IH]; intros fw fp;
    cbn [fold_left].
  - f_equal; apply map_ext; intros k; by rewrite app_nil_r.
  - rewrite collect_city_tabulate, IH.
    f_equal; apply map_ext; intros k;
      by rewrite contributing_values_cons, app_assoc.
Qed.

(** *** Reducing the collected values *)

Lemma aggregate_values_get (data : dict string (list Q)) (acc : dict string Q) key :
  NoDup (dict_keys data) ->
  dict_get key
    (fold_left
       (fun aggregated '(key, values) =>
          match values with
          | [] => aggregated
          | _ :: _ => dict_set key (round2 (mean values)) aggregated
          end)
       data acc)
  = match dict_get key data with
    | Some (v :: values) => Some (round2 (mean (v :: values)))
    | _ => dict_get key acc
    end.
Proof.
  revert acc. unfold dict_keys.
  induction data as [|[k values] rest IH]; intros acc Hnd; [done|].
  rewrite fmap_cons in Hnd. cbn [fst] in Hnd.
  apply NoDup_cons in Hnd as [Hk Hnd]. cbn [fold_left dict_get].
  rewrite (IH _ Hnd). destruct (decide (k = key)) as [->|Hne].
  - apply (proj2 (dict_get_None key rest)) in Hk. rewrite Hk.
    destruct values as [|v values]; [done|]. rewrite dict_get_set.
    by rewrite decide_True.
  - destruct (dict_get key rest) as [[|v' values']|]; try done;
      destruct values as [|v values]; try done;
      rewrite dict_get_set; by rewrite decide_False.
Qed.

Lemma NoDup_metric_keys g : NoDup (metric_keys g).
Proof. destruct g; apply (bool_decide_unpack _); by vm_compute. Qed.

Lemma dict_keys_tabulate {A} (f : string -> A) (keys : list string) :
  dict_keys (map (fun k => (k, f k)) keys) = keys.
Proof.
  unfold dict_keys. induction keys as [|k keys IH]; simpl; [done|]. by f_equal.
Qed.

Lemma aggregate_values_tabulate g key cities_data :
  dict_get key
    (aggregate_values
       (map (fun k => (k, contributing_values g k cities_data)) (metric_keys g)))
  = if decide (key ∈ metric_keys g) then
      match contributing_values g key cities_data with
      | [] => None
      | v :: values => Some (round2 (mean (v :: values)))
      end
    else None.
Proof.
  unfold aggregate_values. rewrite aggregate_values_get.
  - rewrite dict_get_tabulate. by case_decide.
  - rewrite dict_keys_tabulate. apply NoDup_metric_keys.
Qed.

(** A region's aggregate: its identifier, the size of its partition, and,
    for each metric the aggregator reads, the rounded mean of the values
    the partition contributes, when there is at least one. *)
Lemma aggregate_region_spec region_id cities_data entry :
  aggregate_region region_id cities_data = Some entry ->
  agg_region_id (agg_data entry) = region_id
  /\ agg_cities_count (agg_data entry) = Z.of_nat (length cities_data)
  /\ forall g key,
       dict_get key (aggregated_metrics g entry)
       = if decide (key ∈ metric_keys g) then
           match contributing_values g key cities_data with
           | [] => None
           | v :: values => Some (round2 (mean (v :: values)))
           end
         else None.
Proof.
  unfold aggregate_region, empty_lists.
  rewrite (collect_loop_tabulate cities_data (fun _ => []) (fun _ => [])).
  destruct (head cities_data) as [first_city|]; cbn [mbind option_bind]; [|done].
  destruct (obs_region first_city) as [region_name|]; cbn [mbind option_bind]; [|done].
  intros [= <-]. split_and!; [done..|].
  intros g key. destruct g.
  - exact (aggregate_values_tabulate Weather key cities_data).
  - exact (aggregate_values_tabulate Pollution key cities_data).
Qed.

Lemma aggregate_region_is_Some region_id cities_data first_city :
  head cities_data = Some first_city ->
  is_Some (obs_region first_city) ->
  is_Some (aggregate_region region_id cities_data).
Proof.
  intros Hhead [region_name Hname]. unfold aggregate_region.
  rewrite Hhead. simpl. rewrite Hname. simpl.
  by destruct (fold_left _ _ _).
Qed.

(** *** The second loop *)

Lemma aggregate_loop_elem_of regions (acc out : dict string AggEntry) key entry :
  aggregate_loop regions acc = Some out ->
  (key, entry) ∈ out ->
  (key, entry) ∈ acc
  \/ exists region_id cities_data,
       (region_id, cities_data) ∈ regions
       /\ key = str region_id
       /\ aggregate_region region_id cities_data = Some entry.
Proof.
  revert acc. induction regions as [|[rid cities] rest IH]; intros acc; simpl.
  { intros [= ->]. by left. }
  destruct (aggregate_region rid cities) as [e|] eqn:He; simpl; [|done].
  intros Hloop Hin. destruct (IH _ Hloop Hin) as [Hacc | (r & c & Hrc & -> & Hagg)].
  - apply dict_set_elem_of in Hacc as [[= -> ->] | Hacc]; [|by left].
    right. exists rid, cities. split_and!; [apply list_elem_of_here|done..].
  - right. exists r, c. split_and!; [by apply list_elem_of_further|done..].
Qed.

Lemma aggregate_loop_keys regions (acc out : dict string AggEntry) key :
  aggregate_loop regions acc = Some out ->
  key ∈ dict_keys acc \/ key ∈ str <$> dict_keys regions ->
  key ∈ dict_keys out.
Proof.
  revert acc. induction regions as [|[rid cities] rest IH]; intros acc; simpl.
  { intros [= ->] [Hacc | Hnil]; [done | by apply elem_of_nil in Hnil]. }
  destruct (aggregate_region rid cities) as [e|] eqn:He; simpl; [|done].
  intros Hloop Hin. apply (IH _ Hloop).
  rewrite dict_keys_set. destruct Hin as [Hacc | Hin].
  - left. case_decide; [done|]. apply elem_of_app. by left.
  - apply elem_of_cons in Hin as [-> | Hin]; [|by right].
    left. case_decide; [done|]. apply elem_of_app. right. apply list_elem_of_here.
Qed.

Lemma aggregate_loop_is_Some regions (acc : dict string AggEntry) :
  (forall region_id cities_data,
     (region_id, cities_data) ∈ regions ->
     is_Some (aggregate_region region_id cities_data)) ->
  is_Some (aggregate_loop regions acc).
Proof.
  revert acc. induction regions as [|[rid cities] rest IH]; intros acc Hall; simpl.
  { by eexists. }
  destruct (Hall rid cities) as [e He]; [apply list_elem_of_here|].
  rewrite He. simpl. apply IH. intros r c Hin. apply Hall.
  by apply list_elem_of_further.
Qed.

Lemma partition_elem_of region_id mapped_data data :
  data ∈ partition region_id mapped_data ->
  obs_region_id data = Some region_id
  /\ exists city, (city, data) ∈ mapped_data.
Proof.
  unfold partition. intros [Hid Hin]%list_elem_of_filter.
  split; [done|]. apply list_elem_of_fmap in Hin as [[city d] [-> Hin]].
  by exists city.
Qed.

(** The aggregator returns a mapping when every grouped observation has a
    region name. *)
Lemma aggregate_by_region_total mapped_data :
  (forall city data,
     (city, data) ∈ mapped_data ->
     is_Some (obs_region_id data) -> is_Some (obs_region data)) ->
  is_Some (aggregate_by_region mapped_data).
Proof.
  intros Hnamed. apply aggregate_loop_is_Some. intros rid cities Hin.
  apply group_by_region_elem_of in Hin as [-> Hne].
  destruct (partition rid mapped_data) as [|first_city rest] eqn:Hp; [done|].
  apply (aggregate_region_is_Some _ _ first_city); [done|].
  assert (first_city ∈ partition rid mapped_data) as Hfirst
    by (rewrite Hp; apply list_elem_of_here).
  apply partition_elem_of in Hfirst as [Hid [city Hin]].
  apply (Hnamed city); [done | by rewrite Hid].
Qed.

(** Every region identifier with a non-empty partition has an entry. *)
Lemma aggregate_by_region_present mapped_data out region_id :
  aggregate_by_region mapped_data = Some out ->
  partition region_id mapped_data <> [] ->
  is_Some (dict_get (str region_id) out).
Proof.
  intros Hout Hne. apply dict_get_is_Some.
  apply (aggregate_loop_keys _ _ _ _ Hout). right.
  apply list_elem_of_fmap. exists region_id. split; [done|].
  apply (dict_get_is_Some (V:=list Obs)).
  destruct (group_by_region_spec mapped_data) as [_ ->].
  destruct (partition region_id mapped_data); [done | by eexists].
Qed.

(** Every entry is the aggregate of the partition its key spells. *)
Lemma aggregate_by_region_entry mapped_data out key entry :
  aggregate_by_region mapped_data = Some out ->
  dict_get key out = Some entry ->
  exists region_id,
    key = str region_id
    /\ partition region_id mapped_data <> []
    /\ aggregate_region region_id (partition region_id mapped_data) = Some entry.
Proof.
  intros Hout Hget. apply dict_get_elem_of in Hget.
  apply (aggregate_loop_elem_of _ _ _ _ _ Hout) in Hget
    as [Hnil | (rid & cities & Hin & -> & Hagg)].
  { by apply elem_of_nil in Hnil. }
  apply group_by_region_elem_of in Hin as [-> Hne].
  by exists rid.
Qed.

(** C6 -- the aggregator returns an empty mapping on an empty input, and
    returns a mapping whenever every grouped observation has a region
    name.  The mapping has an entry for every region identifier with a
    non-empty partition; the entry under a key belongs to the region
    identifier the key spells, its [cities_count] is the size of the whole
    partition of that identifier, and a metric to which no member of the
    partition contributes a value has no key in the entry. *)
Theorem aggregate_by_region_spec mapped_data :
  aggregate_by_region [] = Some []
  /\ ((forall city data,
         (city, data) ∈ mapped_data ->
         is_Some (obs_region_id data) -> is_Some (obs_region data)) ->
      is_Some (aggregate_by_region mapped_data))
  /\ forall out,
       aggregate_by_region mapped_data = Some out ->
       (forall region_id,
          partition region_id mapped_data <> [] ->
          is_Some (dict_get (str region_id) out))
       /\ forall key entry,
            dict_get key out = Some entry ->
            exists region_id,
              key = str region_id
              /\ agg_region_id (agg_data entry) = region_id
              /\ partition region_id mapped_data <> []
              /\ agg_cities_count (agg_data entry)
                 = Z.of_nat (length (partition region_id mapped_data))
              /\ forall g metric,
                   contributing_values g metric (partition region_id mapped_data) = [] ->
                   dict_get metric (aggregated_metrics g entry) = None.
Proof.
  split_and!; [done|apply aggregate_by_region_total|].
  intros out Hout. split.
  - intros rid. by apply aggregate_by_region_present.
  - intros key entry Hget.
    destruct (aggregate_by_region_entry _ _ _ _ Hout Hget) as (rid & -> & Hne & Hagg).
    apply aggregate_region_spec in Hagg as (Hid & Hcount & Hmetrics).
    exists rid. split_and!; try done.
    intros g metric Hnone. rewrite Hmetrics, Hnone. by case_decide.
Qed.

(** *** Rounding *)

Lemma round_half_even_comp (x y : Q) :
  (x == y)%Q -> round_half_even x = round_half_even y.
Proof.
  intros Heq. unfold round_half_even.
  rewrite (Qfloor_comp x y Heq).
  assert ((x - inject_Z (Qfloor y) ?= 1 # 2)%Q = (y - inject_Z (Qfloor y) ?= 1 # 2)%Q)
    as -> by (by rewrite Heq).
  done.
Qed.

Lemma round2_comp (x y : Q) : (x == y)%Q -> round2 x = round2 y.
Proof.
  intros Heq. unfold round2.
  rewrite (round_half_even_comp (x * 100) (y * 100)); [done|]. by rewrite Heq.
Qed.

Lemma round_half_even_Z (n : Z) : round_half_even (inject_Z n) = n.
Proof.
  unfold round_half_even. rewrite Qfloor_Z.
  assert ((inject_Z n - inject_Z n ?= 1 # 2)%Q = Lt) as ->; [|done].
  apply Qlt_alt.
  assert (inject_Z n - inject_Z n == 0)%Q as Hzero by ring.
  rewrite Hzero. reflexivity.
Qed.

(** A value with at most two decimals is its own rounding. *)
Lemma round2_hundredths (x : Q) (n : Z) : (x == n # 100)%Q -> (round2 x == x)%Q.
Proof.
  intros Heq. unfold round2. rewrite Qred_correct.
  rewrite (round_half_even_comp (x * 100) (inject_Z n)).
  - rewrite round_half_even_Z, Heq. unfold Qeq, Qdiv, Qmult, Qinv, inject_Z. simpl. lia.
  - rewrite Heq. unfold Qeq, Qmult, inject_Z. simpl. lia.
Qed.

Lemma mean_singleton (x : Q) : (mean [x] == x)%Q.
Proof. unfold mean, Qsum. simpl. field. Qed.




(** The scenario of the specification: humidities 40, 60 and 50 and two
    locations without humidity give a mean of 50 over a count of 5. *)
Example five_cities_humidity :
  aggregate_by_region Samples.five_cities
  = Some [("13",
           mkAggEntry "success"
             (mkAggData 13 "London" 5 (mkAggCurrent [("hu", 50%Q)] [])))].
Proof. vm_compute. reflexivity. Qed.

End Aggregation.

(** ** merger.py *)
Section Merging.
Import Aggregator Merger.
Implicit Types (iqair_aggregated : dict string AggEntry)
  (co2_data : gmap string Co2Region) (merged_data : dict string Merged).

(** The body of the loop fails only on the [int] of the key. *)
Lemma merge_region_is_Some region_id_str entry co2_data :
  is_Some (merge_region region_id_str entry co2_data) <-> is_Some (int region_id_str).
Proof.
  unfold merge_region. destruct (int region_id_str) as [rid|]; simpl.
  - split; [by eauto|]. intros _.
    destruct (co2_data !! str rid) as [r|]; [|by eauto].
    destruct (co2_region_list r) as [[|info ?]|]; try by eauto.
    destruct (info_data info) as [[|pt ?]|]; by eauto.
  - split; by intros [? ?].
Qed.

(** Without an emissions entry for the identifier, the record is the base
    record. *)
Lemma merge_region_no_emissions region_id_str entry co2_data region_id :
  int region_id_str = Some region_id ->
  co2_data !! str region_id = None ->
  merge_region region_id_str entry co2_data = Some (base_record region_id entry).
Proof. intros Hint Hco2. unfold merge_region. rewrite Hint. simpl. by rewrite Hco2. Qed.

Lemma merge_loop_is_Some iqair_aggregated co2_data merged_data :
  (forall key, key ∈ dict_keys iqair_aggregated -> is_Some (int key)) ->
  is_Some (merge_loop iqair_aggregated co2_data merged_data).
Proof.
  revert merged_data. unfold dict_keys.
  induction iqair_aggregated as [|[k e] rest IH]; intros acc Hkeys; simpl.
  { by eexists. }
  destruct (proj2 (merge_region_is_Some k e co2_data)) as [m Hm].
  { apply Hkeys. apply list_elem_of_here. }
  rewrite Hm. simpl. apply IH. intros key Hin. apply Hkeys.
  by apply list_elem_of_further.
Qed.

Lemma merge_loop_keys iqair_aggregated co2_data merged_data out :
  merge_loop iqair_aggregated co2_data merged_data = Some out ->
  NoDup (dict_keys merged_data ++ dict_keys iqair_aggregated) ->
  dict_keys out = dict_keys merged_data ++ dict_keys iqair_aggregated.
Proof.
  revert merged_data.
  induction iqair_aggregated as [|[k e] rest IH]; intros acc; simpl.
  { intros [= ->] _. by rewrite app_nil_r. }
  destruct (merge_region k e co2_data) as [m|]; simpl; [|done].
  intros Hloop Hnd.
  assert (dict_keys (dict_set k m acc) = dict_keys acc ++ [k]) as Hset.
  { rewrite dict_keys_set. rewrite decide_False; [done|].
    apply NoDup_app in Hnd as (_ & Hdisj & _). intros Hin.
    apply (Hdisj _ Hin). apply list_elem_of_here. }
  rewrite (IH _ Hloop); rewrite Hset, <- app_assoc; done.
Qed.

Lemma merge_loop_get iqair_aggregated co2_data merged_data out key :
  merge_loop iqair_aggregated co2_data merged_data = Some out ->
  NoDup (dict_keys iqair_aggregated) ->
  dict_get key out
  = match dict_get key iqair_aggregated with
    | Some entry => merge_region key entry co2_data
    | None => dict_get key merged_data
    end.
Proof.
  revert merged_data. unfold dict_keys.
  induction iqair_aggregated as [|[k e] rest IH]; intros acc; simpl.
  { by intros [= ->] _. }
  destruct (merge_region k e co2_data) as [m|] eqn:Hm; simpl; [|done].
  intros Hloop Hnd. apply NoDup_cons in Hnd as [Hk Hnd].
  rewrite (IH _ Hloop Hnd). destruct (decide (k = key)) as [->|Hne].
  - apply (proj2 (dict_get_None key rest)) in Hk. rewrite Hk.
    rewrite dict_get_set. by rewrite decide_True.
  - destruct (dict_get key rest); [done|].
    rewrite dict_get_set. by rewrite decide_False.
Qed.

(** C5 -- on aggregates keyed by region-identifier numerals, the merge
    returns a mapping with exactly the keys of the aggregates, in their
    order, whatever the emissions input holds; and under a key whose
    identifier has no emissions entry it holds the region's name, cities
    count, weather and pollution, and none of the intensity, generation
    mix, from and to fields. *)
Theorem merge_data_spec iqair_aggregated co2_data :
  NoDup (dict_keys iqair_aggregated) ->
  (forall key, key ∈ dict_keys iqair_aggregated -> is_Some (int key)) ->
  exists out,
    merge_data iqair_aggregated co2_data = Some out
    /\ dict_keys out = dict_keys iqair_aggregated
    /\ (forall key, key ∉ dict_keys iqair_aggregated -> dict_get key out = None)
    /\ forall key entry region_id,
         dict_get key iqair_aggregated = Some entry ->
         int key = Some region_id ->
         co2_data !! str region_id = None ->
         exists merged,
           dict_get key out = Some merged
           /\ m_region_id merged = region_id
           /\ m_region merged = agg_region (agg_data entry)
           /\ m_cities_count merged = agg_cities_count (agg_data entry)
           /\ m_weather merged = agg_weather (agg_current (agg_data entry))
           /\ m_pollution merged = agg_pollution (agg_current (agg_data entry))
           /\ m_intensity merged = None
           /\ m_generationmix merged = None
           /\ m_from merged = None
           /\ m_to merged = None.
Proof.
  intros Hnd Hkeys.
  destruct (merge_loop_is_Some iqair_aggregated co2_data [] Hkeys) as [out Hout].
  exists out. pose proof (merge_loop_keys _ _ _ _ Hout Hnd) as Hdom.
  split_and!; [done|done| |].
  - intros key Hkey. apply dict_get_None. by rewrite Hdom.
  - intros key entry region_id Hentry Hint Hco2.
    exists (base_record region_id entry). split_and!; try done.
    rewrite (merge_loop_get _ _ _ _ key Hout Hnd), Hentry.
    by apply merge_region_no_emissions.
Qed.

Lemma merge_data_spec_witness :
  NoDup (dict_keys Samples.london_aggregated)
  /\ (forall key, key ∈ dict_keys Samples.london_aggregated -> is_Some (int key))
  /\ exists out,
       merge_data Samples.london_aggregated Samples.scotland_co2 = Some out
       /\ dict_keys out = ["13"]
       /\ dict_get "1" out = None.
Proof.
  assert (NoDup (dict_keys Samples.london_aggregated)) as Hnd.
  { apply (bool_decide_unpack _). vm_compute. reflexivity. }
  assert (forall key, key ∈ dict_keys Samples.london_aggregated -> is_Some (int key))
    as Hkeys.
  { intros key Hin. apply list_elem_of_singleton in Hin as ->. by exists 13. }
  split_and!; [done..|].
  destruct (merge_data_spec Samples.london_aggregated Samples.scotland_co2 Hnd Hkeys)
    as (out & Hout & Hdom & Habsent & _).
  exists out. split_and!; [done..|].
  apply Habsent. intros Hin. apply list_elem_of_singleton in Hin. discriminate.
Defined.

(** What the aggregator returns meets the premises of the merge. *)
Lemma aggregate_loop_NoDup regions (acc out : dict string AggEntry) :
  aggregate_loop regions acc = Some out ->
  NoDup (dict_keys acc) -> NoDup (dict_keys out).
Proof.
  revert acc. induction regions as [|[rid cities] rest IH]; intros acc; simpl.
  { by intros [= ->]. }
  destruct (aggregate_region rid cities) as [e|]; simpl; [|done].
  intros Hloop Hnd. apply (IH _ Hloop). by apply dict_set_NoDup.
Qed.

Lemma aggregate_then_merge mapped_data co2_data out :
  aggregate_by_region mapped_data = Some out ->
  is_Some (merge_data out co2_data).
Proof.
  intros Hout. apply merge_loop_is_Some. intros key Hkey.
  apply dict_get_is_Some in Hkey as [entry Hentry].
  destruct (aggregate_by_region_entry _ _ _ _ Hout Hentry) as (rid & -> & _).
  rewrite int_str. by eexists.
Qed.

End Merging.

(** ** pipeline.py *)
Section Orchestration.
Import Pipeline.
Variable behaviour : stage -> Z -> stage_outcome * Z.
Implicit Types (w : world).

(** A stage wrapper calls its main once; it answers [False] exactly when
    the main raises an ordinary exception. *)
Lemma run_extract_invoked w b w1 :
  run_extract behaviour w = (Ok b, w1) ->
  invoked w1 = invoked w ++ [Extract] /\ stats w1 = stats w.
Proof.
  unfold run_extract, try_except, stage_main, mbind, M_bind, bind, ret.
  destruct (behaviour Extract (clock w)) as [[|[]] secs]; simpl;
    by intros [= <- <-].
Qed.

(** C4 -- when the Extract stage reports failure the run calls no other
    stage, answers [False], and adds exactly one to the total-run, the
    failed-run and the consecutive-failure counts; a run that answers
    [True] leaves the consecutive-failure count at zero and records the
    time as the last success. *)
Theorem run_pipeline_stats w :
  (forall w1,
     run_extract behaviour w = (Ok false, w1) ->
     exists w',
       run_pipeline behaviour w = (Ok false, w')
       /\ invoked w' = invoked w ++ [Extract]
       /\ total_runs (stats w') = total_runs (stats w) + 1
       /\ failed_runs (stats w') = failed_runs (stats w) + 1
       /\ consecutive_failures (stats w') = consecutive_failures (stats w) + 1
       /\ successful_runs (stats w') = successful_runs (stats w)
       /\ last_successful_run (stats w') = last_successful_run (stats w))
  /\ (forall w',
        run_pipeline behaviour w = (Ok true, w') ->
        consecutive_failures (stats w') = 0
        /\ last_successful_run (stats w') = Some (clock w')
        /\ total_runs (stats w') = total_runs (stats w) + 1
        /\ successful_runs (stats w') = successful_runs (stats w) + 1
        /\ invoked w' = invoked w ++ [Extract; Transform; Load]).
Proof.
  split.
  - intros w1 Hextract.
    destruct (run_extract_invoked _ _ _ Hextract) as [Hinv Hstats].
    unfold run_pipeline, mbind, M_bind, bind, now. rewrite Hextract.
    eexists. split; [reflexivity|]. simpl. rewrite Hinv, Hstats. by split_and!.
  - intros w'.
    unfold run_pipeline, run_extract, run_transform, run_load, update_stats,
      try_except, stage_main, mbind, M_bind, bind, now, ret, get_stats, put_stats.
    simpl.
    destruct (behaviour Extract (clock w)) as [[|[]] s1]; simpl; try done.
    destruct (behaviour Transform (clock w + s1)) as [[|[]] s2]; simpl; try done.
    destruct (behaviour Load (clock w + s1 + s2)) as [[|[]] s3]; simpl; try done.
    intros [= <-]. simpl. rewrite <- !app_assoc. by split_and!.
Qed.

(** [run_pipeline_safe] absorbs every exception. *)
Lemma run_pipeline_safe_returns w :
  exists b w', run_pipeline_safe behaviour w = (Ok b, w').
Proof.
  unfold run_pipeline_safe, try_except, any_exn, ret.
  match goal with
  | |- context [match ?body with _ => _ end] => destruct body as [[b|e] w']
  end; by eauto.
Qed.

(** Once the count has reached the threshold, the process sleeps the
    back-off before [run_pipeline_safe] returns. *)
Lemma run_pipeline_safe_backoff w b w1 :
  run_pipeline behaviour w = (Ok b, w1) ->
  MAX_CONSECUTIVE_FAILURES <= consecutive_failures (stats w1) ->
  run_pipeline_safe behaviour w
  = (Ok b, mkWorld (clock w1 + FAILURE_BACKOFF_SECONDS) (stats w1) (invoked w1)).
Proof.
  intros Hrun Hmax.
  unfold run_pipeline_safe, try_except, mbind, M_bind, bind, get_stats.
  rewrite Hrun.
  assert ((consecutive_failures (stats w1) >=? MAX_CONSECUTIVE_FAILURES) = true)
    as -> by lia.
  done.
Qed.

(** On the scheduled path the next run time is the time read before the
    run plus the interval: nothing the run does, the back-off sleep
    included, moves it. *)
Lemma scheduler_iteration_due w next_run_time :
  next_run_time <= clock w ->
  exists w',
    scheduler_iteration behaviour next_run_time w
    = (Ok (clock w + minutes PIPELINE_INTERVAL_MINUTES), w').
Proof.
  intros Hdue. unfold scheduler_iteration, mbind, M_bind, bind, now.
  assert ((clock w >=? next_run_time) = true) as -> by lia.
  destruct (run_pipeline_safe_returns w) as (b & w' & ->). simpl.
  by eexists.
Qed.

(** On the startup path the next run time is read after the run, hence
    after the back-off sleep. *)
Lemma main_startup_next w next_run_time w' :
  main_startup behaviour w = (Ok next_run_time, w') ->
  next_run_time = clock w' + minutes PIPELINE_INTERVAL_MINUTES.
Proof.
  unfold main_startup, mbind, M_bind, bind, now, get_stats, put_stats, ret.
  destruct (run_pipeline_safe_returns
              (mkWorld (clock w)
                 (mkStats (total_runs (stats w)) (successful_runs (stats w))
                    (failed_runs (stats w)) (consecutive_failures (stats w))
                    (Some (clock w)) (last_successful_run (stats w)))
                 (invoked w))) as (b & w1 & ->).
  by intros [= <- <-].
Qed.

End Orchestration.

Section Backoff.
Import Pipeline.

(** A run whose Extract stage raises, and a run whose stages all complete. *)
Example run_pipeline_extract_failure :
  run_extract Samples.upstream_down Samples.four_failures
  = (Ok false, mkWorld 10002 (mkStats 4 0 4 4 (Some 0) None) [Extract])
  /\ run_pipeline Samples.upstream_down Samples.four_failures
     = (Ok false, mkWorld 10002 (mkStats 5 0 5 5 (Some 0) None) [Extract]).
Proof. split; vm_compute; reflexivity. Qed.

Example run_pipeline_success :
  run_pipeline Samples.all_fine Samples.four_failures
  = (Ok true,
     mkWorld 10009 (mkStats 5 1 4 0 (Some 0) (Some 10009)) [Extract; Transform; Load]).
Proof. vm_compute. reflexivity. Qed.

(** A first failure at startup: no back-off, the next run is one interval
    after the end of the run. *)
Example startup_first_failure :
  main_startup Samples.upstream_down (mkWorld 0 initial_stats [])
  = (Ok (2 + minutes PIPELINE_INTERVAL_MINUTES),
     mkWorld 2 (mkStats 1 0 1 1 (Some 0) None) [Extract]).
Proof. vm_compute. reflexivity. Qed.

(** C3 -- a scheduled run due at second 10000, the fifth failure in a
    row: the threshold is reached and the process sleeps the back-off (the
    clock ends 2 + 300 + 1 seconds later), yet the next run is scheduled
    exactly one interval after the start of this one, which is less than
    the interval plus the back-off. *)
Theorem scheduled_run_backoff_absorbed :
  exists next_run_time w',
    scheduler_iteration Samples.upstream_down 10000 Samples.four_failures
    = (Ok next_run_time, w')
    /\ consecutive_failures (stats w') = MAX_CONSECUTIVE_FAILURES
    /\ clock w' = clock Samples.four_failures + 2 + FAILURE_BACKOFF_SECONDS + 1
    /\ next_run_time - clock Samples.four_failures
       = minutes PIPELINE_INTERVAL_MINUTES
    /\ next_run_time - clock Samples.four_failures
       < minutes PIPELINE_INTERVAL_MINUTES + FAILURE_BACKOFF_SECONDS.
Proof.
  eexists _, _. split; [vm_compute; reflexivity|]. by vm_compute.
Qed.

Lemma scheduler_iteration_due_witness :
  10000 <= clock Samples.four_failures
  /\ exists w',
       scheduler_iteration Samples.upstream_down 10000 Samples.four_failures
       = (Ok (clock Samples.four_failures + minutes PIPELINE_INTERVAL_MINUTES), w').
Proof.
  split; [by vm_compute|].
  apply (scheduler_iteration_due Samples.upstream_down Samples.four_failures 10000).
  by vm_compute.
Defined.

(** The same run at startup: the next run comes the interval and the
    back-off after it. *)
Example startup_run_backoff_counts :
  exists next_run_time w',
    main_startup Samples.upstream_down Samples.four_failures = (Ok next_run_time, w')
    /\ consecutive_failures (stats w') = MAX_CONSECUTIVE_FAILURES
    /\ minutes PIPELINE_INTERVAL_MINUTES + FAILURE_BACKOFF_SECONDS
       <= next_run_time - clock Samples.four_failures.
Proof.
  eexists _, _. split; [vm_compute; reflexivity|]. by vm_compute.
Qed.

End Backoff.

(** ** loader.py *)
Section Retention.
Import Loader.
Implicit Types (fs : filesystem) (data : list json).

(** For a positive bound, [data[-max_entries:]] is the last [max_entries]
    entries. *)
Lemma slice_from_neg {A} (max_entries : Z) (l : list A) :
  0 < max_entries ->
  slice_from (- max_entries) l = drop (length l - Z.to_nat max_entries) l.
Proof.
  intros Hpos. unfold slice_from.
  assert ((- max_entries <? 0) = true) as -> by lia.
  f_equal. lia.
Qed.

(** Under a positive bound the file stays a list, of at most
    [max_entries] entries. *)
Lemma cleanup_old_entries_length filename (max_entries : Z) fs data :
  0 < max_entries ->
  fs !! filename = Some (Json (JArr data)) ->
  exists kept,
    cleanup_old_entries filename max_entries fs !! filename = Some (Json (JArr kept))
    /\ Z.of_nat (length kept) <= max_entries.
Proof.
  intros Hpos Hfile. unfold cleanup_old_entries. rewrite Hfile.
  destruct (Z.of_nat (length data) >? max_entries) eqn:Hlen.
  - eexists. rewrite lookup_insert_eq. split; [done|].
    rewrite slice_from_neg, length_drop by done. lia.
  - exists data. split; [done|lia].
Qed.

(** Other files are left alone. *)
Lemma cleanup_old_entries_other filename filename' (max_entries : Z) fs :
  filename <> filename' ->
  cleanup_old_entries filename max_entries fs !! filename' = fs !! filename'.
Proof.
  intros Hne. unfold cleanup_old_entries.
  destruct (fs !! filename) as [[[]|]|]; try done.
  case_match; [by rewrite lookup_insert_ne | done].
Qed.

(** C10 -- with a bound of zero the slice [data[-0:]] is the whole list:
    a history of three entries stays three entries long, where the bound
    asks for none. *)
Theorem cleanup_old_entries_zero_bound :
  cleanup_old_entries "historical_merged_data.json" 0
    {[ "historical_merged_data.json" := Json (JArr [JNum 1; JNum 2; JNum 3]) ]}
    !! "historical_merged_data.json"
  = Some (Json (JArr [JNum 1; JNum 2; JNum 3])).
Proof. vm_compute. reflexivity. Qed.

(** One file of the load: either skipped, or its history rewritten as a
    list and counted. *)
Lemma load_file_cases timestamp fs (success_count : Z) source_file target_file :
  load_file timestamp (fs, success_count) (source_file, target_file)
  = (fs, success_count)
  \/ exists data,
       load_file timestamp (fs, success_count) (source_file, target_file)
       = (<[target_file := Json (JArr data)]> fs, success_count + 1).
Proof.
  unfold load_file. destruct (fs !! source_file) as [[new_data|]|]; try by left.
  right. by eexists.
Qed.

(** After a load that succeeds, each historical file is a list. *)
Lemma load_and_append_data_lists timestamp fs fs' target_file :
  load_and_append_data timestamp fs = (true, fs') ->
  target_file ∈ files_to_load.*2 ->
  exists data, fs' !! target_file = Some (Json (JArr data)).
Proof.
  unfold load_and_append_data, files_to_load. cbn [fold_left length].
  destruct (load_file_cases timestamp fs 0 "mapped.json" "historical_mapped.json")
    as [-> | [d1 ->]];
  match goal with
  | |- context [load_file _ (?fs1, ?n) ("iqair_mapped.json", _)] =>
      destruct (load_file_cases timestamp fs1 n
                  "iqair_mapped.json" "historical_iqair_mapped.json")
        as [-> | [d2 ->]]
  end;
  match goal with
  | |- context [load_file _ (?fs2, ?n) ("merged_data.json", _)] =>
      destruct (load_file_cases timestamp fs2 n
                  "merged_data.json" "historical_merged_data.json")
        as [-> | [d3 ->]]
  end; cbn; try (intros [= ?]; discriminate).
  intros [= <-] Hin.
  repeat (apply elem_of_cons in Hin as [-> | Hin]);
    [| | |by apply elem_of_nil in Hin]; eexists; by simplify_map_eq.
Qed.

(** In the main flow of the loader, after a successful load each of the
    three historical files holds at most 50 entries. *)
Lemma main_caps_history timestamp fs fs' target_file :
  main timestamp fs = (true, fs') ->
  target_file ∈ files_to_load.*2 ->
  exists data,
    fs' !! target_file = Some (Json (JArr data))
    /\ (length data <= 50)%nat.
Proof.
  unfold main.
  destruct (load_and_append_data timestamp fs) as [[] fs1] eqn:Hload; [|done].
  intros [= <-] Hin.
  assert (forall name fs0 data0,
            fs0 !! name = Some (Json (JArr data0)) ->
            exists data,
              cleanup_old_entries name 50 fs0 !! name = Some (Json (JArr data))
              /\ (length data <= 50)%nat) as Hcap.
  { intros name fs0 data0 Hfile.
    destruct (cleanup_old_entries_length name 50 fs0 data0)
      as (kept & Hkept & Hlen); [lia|done|].
    exists kept. split; [done|lia]. }
  pose proof (load_and_append_data_lists _ _ _ _ Hload Hin) as [data0 Hfile].
  repeat (apply elem_of_cons in Hin as [-> | Hin]);
    [| | |by apply elem_of_nil in Hin].
  - rewrite !cleanup_old_entries_other by done. by eapply Hcap.
  - rewrite cleanup_old_entries_other by done. eapply Hcap.
    by rewrite cleanup_old_entries_other.
  - eapply Hcap. by rewrite !cleanup_old_entries_other.
Qed.

(** Retention under a positive bound: the file holds the most recent
    [max_entries] entries of the list when the list is longer than that,
    and the list itself otherwise. *)
Lemma cleanup_old_entries_positive filename (max_entries : Z) fs data :
  0 < max_entries ->
  fs !! filename = Some (Json (JArr data)) ->
  exists kept,
    cleanup_old_entries filename max_entries fs !! filename = Some (Json (JArr kept))
    /\ kept `suffix_of` data
    /\ Z.of_nat (length kept) = Z.min (Z.of_nat (length data)) max_entries
    /\ (Z.of_nat (length data) <= max_entries -> kept = data).
Proof.
  intros Hpos Hfile. unfold cleanup_old_entries. rewrite Hfile.
  destruct (Z.of_nat (length data) >? max_entries) eqn:Hlen.
  - exists (slice_from (- max_entries) data).
    rewrite lookup_insert_eq, slice_from_neg by done.
    split_and!; [done|apply suffix_drop| |lia].
    rewrite length_drop. lia.
  - exists data. split_and!; [done|done|lia|done].
Qed.

Lemma cleanup_old_entries_positive_witness :
  0 < 2
  /\ Samples.after_transform !! "historical_merged_data.json"
     = Some (Json (JArr [JNum 1; JNum 2; JNum 3]))
  /\ exists kept,
       cleanup_old_entries "historical_merged_data.json" 2 Samples.after_transform
         !! "historical_merged_data.json" = Some (Json (JArr kept))
       /\ kept `suffix_of` [JNum 1; JNum 2; JNum 3]
       /\ Z.of_nat (length kept) = Z.min (Z.of_nat 3) 2
       /\ (Z.of_nat 3 <= 2 -> kept = [JNum 1; JNum 2; JNum 3]).
Proof.
  split_and!; [lia | by vm_compute |].
  apply (cleanup_old_entries_positive "historical_merged_data.json" 2
           Samples.after_transform [JNum 1; JNum 2; JNum 3]).
  - lia.
  - by vm_compute.
Defined.

Lemma main_caps_history_witness :
  exists data,
    (main "2024-01-01T00:00:00" Samples.after_transform).2
      !! "historical_merged_data.json" = Some (Json (JArr data))
    /\ (length data <= 50)%nat.
Proof.
  apply (main_caps_history "2024-01-01T00:00:00" Samples.after_transform).
  - vm_compute. reflexivity.
  - apply (bool_decide_unpack _). vm_compute. reflexivity.
Defined.

End Retention.

(** ** mapper.py: loading the city table *)
Section CityTableFacts.
Import CityTable.

Lemma read_rows_lookup lines (acc : gmap string string) city :
  read_rows lines acc !! city
  = match last (omap (row_region city) (readable lines)) with
    | Some region => Some region
    | None => acc !! city
    end.
Proof.
  revert acc. induction lines as [|[row|] rest IH]; intros acc; [done| |done].
  cbn [read_rows readable omap list_omap]. rewrite IH.
  unfold row_region at 2.
  destruct row as [|c [|region cols]];
    try by destruct (last (omap (row_region city) (readable rest))).
  destruct (decide (c = city)) as [->|Hc];
    destruct (decide (region = "Northern Ireland")) as [->|Hni];
    try by destruct (last (omap (row_region city) (readable rest))).
  - rewrite last_cons.
    destruct (last (omap (row_region city) (readable rest))); [done|].
    by rewrite lookup_insert_eq.
  - destruct (last (omap (row_region city) (readable rest))); [done|].
    by rewrite lookup_insert_ne.
Qed.

(** The table maps a city to the region of the last row that names it with
    a region other than Northern Ireland, among the rows read after the
    header and before any reading error; it is empty when the file cannot
    be opened, is empty, or fails on its header.  No city is ever mapped
    to Northern Ireland, and a later Northern Ireland row does not remove
    an earlier mapping. *)
Theorem load_city_to_region_mapping_lookup file city :
  load_city_to_region_mapping file !! city
  = match file with
    | Some (Row header :: lines) => last (omap (row_region city) (readable lines))
    | _ => None
    end
  /\ forall region,
       load_city_to_region_mapping file !! city = Some region ->
       region <> "Northern Ireland".
Proof.
  assert (load_city_to_region_mapping file !! city
          = match file with
            | Some (Row header :: lines) => last (omap (row_region city) (readable lines))
            | _ => None
            end) as Hlookup.
  { destruct file as [[|[header|] lines]|]; try done.
    cbn [load_city_to_region_mapping]. rewrite read_rows_lookup.
    by destruct (last _). }
  split; [done|]. rewrite Hlookup. intros region Hlast.
  destruct file as [[|[header|] lines]|]; try done.
  apply last_Some_elem_of, list_elem_of_omap in Hlast as (row & _ & Hrow).
  unfold row_region in Hrow. destruct row as [|c [|r cols]]; try done.
  destruct (decide (c = city)); [|done].
  destruct (decide (r = "Northern Ireland")); [done|]. by injection Hrow as <-.
Qed.

End CityTableFacts.

(** ** mapper.py: the fallback chain and the order of the output *)
Section Fallbacks.
Import Mapper.
Implicit Types (city region : string) (data obs : Obs)
  (table : gmap string string) (iqair_data : dict string Obs).

(** Every region of the boxes has an identifier in the catalogue. *)
Lemma UK_REGIONS_catalogued name :
  name ∈ dict_keys UK_REGIONS -> is_Some (REGION_NAME_TO_ID !! name).
Proof.
  revert name. apply Forall_forall. apply (bool_decide_unpack _). by vm_compute.
Qed.

Lemma get_region_from_coordinates_catalogued (lat lon : Q) :
  exists region region_id,
    get_region_from_coordinates lat lon = Some region
    /\ region <> ""
    /\ REGION_NAME_TO_ID !! region = Some region_id.
Proof.
  assert (exists region,
             get_region_from_coordinates lat lon = Some region
             /\ region ∈ dict_keys UK_REGIONS) as (region & Hres & Hin).
  { unfold get_region_from_coordinates.
    destruct (first_containing UK_REGIONS lat lon) as [name|] eqn:Hfirst.
    - destruct (first_containing_Some _ _ _ _ Hfirst) as (pre & b & post & Heq & _).
      exists name. split; [done|]. rewrite Heq. unfold dict_keys.
      rewrite fmap_app, fmap_cons. apply elem_of_app. right. apply list_elem_of_here.
    - destruct (closest_loop_spec UK_REGIONS lat lon Inf None)
        as [[_ Hall] | (pre & n & b & post & Heq & Hres & _)].
      + exfalso. unfold UK_REGIONS in Hall. by inversion Hall.
      + exists n. rewrite Hres. split; [done|]. rewrite Heq. unfold dict_keys.
        rewrite fmap_app, fmap_cons. apply elem_of_app. right. apply list_elem_of_here. }
  destruct (UK_REGIONS_catalogued region Hin) as [region_id Hid].
  exists region, region_id. split_and!; [done| |done].
  intros ->. vm_compute in Hid. discriminate.
Qed.



(** The loop appends the accepted entries to a dictionary that has none of
    their names. *)
Lemma map_loop_omap iqair_data table (acc : dict string Obs) :
  NoDup (dict_keys acc ++ dict_keys iqair_data) ->
  fold_left
    (fun mapped_data '(city, data) =>
       match map_city city data table with
       | Some data' => dict_set city data' mapped_data
       | None => mapped_data
       end)
    iqair_data acc
  = acc ++ omap (fun '(city, data) => pair city <$> map_city city data table) iqair_data.
Proof.
  revert acc. induction iqair_data as [|[c d] rest IH]; intros acc Hnd.
  { by rewrite app_nil_r. }
  rewrite map_cities_to_regions_cons. cbn [omap list_omap].
  assert (c ∉ dict_keys acc) as Hfresh.
  { apply NoDup_app in Hnd as (_ & Hdisj & _). intros Hin.
    apply (Hdisj _ Hin). apply list_elem_of_here. }
  assert (NoDup (dict_keys acc ++ dict_keys rest)) as Hnd'.
  { unfold dict_keys in *. rewrite fmap_cons in Hnd.
    by apply NoDup_app in Hnd as (? & ? & ?%NoDup_cons_1_2); apply NoDup_app;
      split_and!; [|intros x Hx Hx'; eapply H0; [done|by apply list_elem_of_further]|]. }
  destruct (map_city c d table) as [d'|] eqn:Hmap; cbn [fmap option_fmap option_map].
  - rewrite (dict_set_fresh _ _ _ Hfresh), IH.
    + by rewrite <- app_assoc.
    + unfold dict_keys in *. rewrite fmap_app, <- app_assoc. cbn.
      rewrite fmap_cons in Hnd. done.
  - by apply IH.
Qed.

(** On an input whose names are distinct, the output is exactly the
    accepted entries, each as [map_city] emits it, in the order of the
    input: no name is invented, none is moved. *)
Theorem map_cities_to_regions_order iqair_data table :
  NoDup (dict_keys iqair_data) ->
  map_cities_to_regions iqair_data table
  = omap (fun '(city, data) => pair city <$> map_city city data table) iqair_data
  /\ dict_keys (map_cities_to_regions iqair_data table) `sublist_of` dict_keys iqair_data
  /\ (length (map_cities_to_regions iqair_data table) <= length iqair_data)%nat.
Proof.
  intros Hnd.
  assert (map_cities_to_regions iqair_data table
          = omap (fun '(city, data) => pair city <$> map_city city data table) iqair_data)
    as Heq by (by apply (map_loop_omap iqair_data table [])).
  rewrite Heq. split_and!; [done| |].
  - unfold dict_keys. clear. induction iqair_data as [|[c d] rest IH]; [done|].
    cbn [omap list_omap]. destruct (map_city c d table); cbn.
    + by apply sublist_skip.
    + by apply sublist_cons.
  - clear. induction iqair_data as [|[c d] rest IH]; [done|].
    cbn [omap list_omap]. destruct (map_city c d table); cbn in *; lia.
Qed.

Lemma map_cities_to_regions_order_witness :
  NoDup (dict_keys [("Inverness", Samples.bare_obs); ("Camden", Samples.raw_obs)])
  /\ dict_keys (map_cities_to_regions
                  [("Inverness", Samples.bare_obs); ("Camden", Samples.raw_obs)] ∅)
     `sublist_of` ["Inverness"; "Camden"].
Proof.
  assert (NoDup (dict_keys [("Inverness", Samples.bare_obs); ("Camden", Samples.raw_obs)]))
    as Hnd by (apply (bool_decide_unpack _); vm_compute; reflexivity).
  split; [done|].
  by destruct (map_cities_to_regions_order
                 [("Inverness", Samples.bare_obs); ("Camden", Samples.raw_obs)] ∅ Hnd)
    as (_ & Hsub & _).
Defined.

End Fallbacks.

(** ** aggregator.py: means, errors and counts *)
Section AggregationMore.
Import Mapper Aggregator TransformProps.
Implicit Types (mapped_data : dict string Obs) (cities_data : list Obs)
  (regions : dict Z (list Obs)) (g : metric_group).



(** *** The [KeyError] of the region name *)

Lemma aggregate_loop_None regions (acc : dict string AggEntry) :
  aggregate_loop regions acc = None <->
  exists region_id cities_data,
    (region_id, cities_data) ∈ regions
    /\ aggregate_region region_id cities_data = None.
Proof.
  revert acc. induction regions as [|[rid cities] rest IH]; intros acc; simpl.
  { split; [done|]. intros (? & ? & Hin & _). by apply elem_of_nil in Hin. }
  destruct (aggregate_region rid cities) as [e|] eqn:He; simpl.
  - rewrite IH. split.
    + intros (r & c & Hin & Hnone). exists r, c. split; [by apply list_elem_of_further|done].
    + intros (r & c & Hin & Hnone). apply elem_of_cons in Hin as [[= -> ->]|Hin];
        [congruence|]. by exists r, c.
  - split; [|done]. intros _. exists rid, cities. split; [apply list_elem_of_here|done].
Qed.

Lemma group_by_region_elem_of_iff mapped_data region_id cities_data :
  (region_id, cities_data) ∈ group_by_region mapped_data <->
  cities_data = partition region_id mapped_data /\ cities_data <> [].
Proof.
  split; [apply group_by_region_elem_of|]. intros [-> Hne].
  apply dict_get_elem_of. destruct (group_by_region_spec mapped_data) as [_ ->].
  by destruct (partition region_id mapped_data).
Qed.


(** *** Every grouped observation is counted once *)

Lemma dict_set_total {K V} `{EqDecision K} (f : V -> Z) (k : K) (v : V) (d : dict K V) :
  foldr (fun e total => f e.2 + total) 0 (dict_set k v d)
  = foldr (fun e total => f e.2 + total) 0 d + f v
    - default 0 (f <$> dict_get k d).
Proof.
  induction d as [|[k0 v0] d IH]; simpl; [lia|].
  destruct (decide (k0 = k)) as [->|Hne]; simpl; [lia|].
  rewrite IH. destruct (dict_get k d); simpl; lia.
Qed.

Lemma group_append_total region_id data regions :
  total_members (group_append region_id data regions) = total_members regions + 1.
Proof.
  unfold total_members, group_append.
  destruct (dict_get region_id regions) as [cities|] eqn:Hget;
    rewrite (dict_set_total (fun cities => Z.of_nat (length cities))), Hget; simpl.
  - rewrite length_app. simpl. lia.
  - lia.
Qed.

Lemma group_loop_total rest regions :
  total_members
    (fold_left
       (fun regions '(_, data) =>
          match obs_region_id data with
          | Some region_id => group_append region_id data regions
          | None => regions
          end)
       rest regions)
  = total_members regions + Z.of_nat (length (grouped rest)).
Proof.
  revert regions. unfold grouped.
  induction rest as [|[city data] rest IH]; intros regions; [simpl; lia|].
  cbn [fold_left]. rewrite IH, fmap_cons, filter_cons. cbn [snd].
  destruct (obs_region_id data) as [rid|] eqn:Hrid.
  - rewrite decide_True by (by eexists). rewrite group_append_total.
    cbn [length]. lia.
  - rewrite decide_False by (by intros [? ?]). done.
Qed.

Lemma aggregate_loop_total regions (acc out : dict string AggEntry) :
  aggregate_loop regions acc = Some out ->
  NoDup (dict_keys acc ++ (str <$> dict_keys regions)) ->
  total_cities out = total_cities acc + total_members regions.
Proof.
  revert acc. induction regions as [|[rid cities] rest IH]; intros acc; simpl.
  { intros [= ->] _. unfold total_members. simpl. lia. }
  destruct (aggregate_region rid cities) as [e|] eqn:He; simpl; [|done].
  intros Hloop Hnd.
  assert (str rid ∉ dict_keys acc) as Hfresh.
  { apply NoDup_app in Hnd as (_ & Hdisj & _). intros Hin.
    apply (Hdisj _ Hin). apply list_elem_of_here. }
  rewrite (IH _ Hloop).
  - unfold total_cities at 1.
    rewrite (dict_set_total (fun e => agg_cities_count (agg_data e))).
    apply (proj2 (dict_get_None (str rid) acc)) in Hfresh. rewrite Hfresh.
    apply aggregate_region_spec in He as (_ & -> & _).
    unfold total_cities, total_members. simpl. lia.
  - rewrite dict_keys_set, decide_False by done.
    by rewrite <- app_assoc.
Qed.

(** The counts of the regions add up to the number of observations that
    carry a region identifier: each is counted in exactly one region. *)
Theorem aggregate_by_region_counts mapped_data out :
  aggregate_by_region mapped_data = Some out ->
  total_cities out = Z.of_nat (length (grouped mapped_data)).
Proof.
  intros Hout. unfold aggregate_by_region in Hout.
  rewrite (aggregate_loop_total _ _ _ Hout).
  - unfold group_by_region. rewrite group_loop_total. unfold total_cities, total_members.
    simpl. lia.
  - simpl. apply NoDup_fmap_2; [|apply group_by_region_spec].
    intros n m. apply str_inj.
Qed.

Lemma aggregate_by_region_counts_witness :
  total_cities
    [("13",
      mkAggEntry "success"
        (mkAggData 13 "London" 5 (mkAggCurrent [("hu", 50%Q)] [])))]
  = Z.of_nat (length (grouped Samples.five_cities)).
Proof.
  apply (aggregate_by_region_counts Samples.five_cities).
  vm_compute. reflexivity.
Defined.

End AggregationMore.

(** ** merger.py: the emissions fields and the [ValueError] *)
Section MergingMore.
Import Mapper Aggregator Merger TransformProps.
Implicit Types (iqair_aggregated : dict string AggEntry)
  (co2_data : gmap string Co2Region) (merged_data : dict string Merged).

(** What the body of the loop builds for one key. *)
Lemma merge_region_fields region_id_str entry co2_data merged :
  merge_region region_id_str entry co2_data = Some merged ->
  exists region_id,
    int region_id_str = Some region_id
    /\ m_region_id merged = region_id
    /\ m_region merged = agg_region (agg_data entry)
    /\ m_cities_count merged = agg_cities_count (agg_data entry)
    /\ m_weather merged = agg_weather (agg_current (agg_data entry))
    /\ m_pollution merged = agg_pollution (agg_current (agg_data entry))
    /\ m_intensity merged = first_point co2_data region_id ≫= pt_intensity
    /\ m_generationmix merged = first_point co2_data region_id ≫= pt_generationmix
    /\ m_from merged = first_point co2_data region_id ≫= pt_from
    /\ m_to merged = first_point co2_data region_id ≫= pt_to.
Proof.
  unfold merge_region, first_point.
  destruct (int region_id_str) as [rid|]; cbn [mbind option_bind]; [|done].
  intros Hmerged. exists rid. split; [done|].
  destruct (co2_data !! str rid) as [r|]; cbn [mbind option_bind].
  - destruct (co2_region_list r) as [[|info infos]|]; cbn [mbind option_bind head];
      try (injection Hmerged as <-; by split_and!).
    destruct (info_data info) as [[|pt pts]|]; cbn [mbind option_bind head];
      try (injection Hmerged as <-; by split_and!).
    injection Hmerged as <-. unfold add_co2. cbn.
    by destruct (pt_intensity pt), (pt_generationmix pt), (pt_from pt), (pt_to pt).
  - injection Hmerged as <-. by split_and!.
Qed.

Lemma merge_loop_lookup iqair_aggregated co2_data out key entry :
  NoDup (dict_keys iqair_aggregated) ->
  merge_data iqair_aggregated co2_data = Some out ->
  dict_get key iqair_aggregated = Some entry ->
  exists merged,
    dict_get key out = Some merged
    /\ merge_region key entry co2_data = Some merged.
Proof.
  intros Hnd Hout Hentry.
  pose proof (merge_loop_get _ _ _ _ key Hout Hnd) as Hget. rewrite Hentry in Hget.
  assert (is_Some (dict_get key out)) as [merged Hmerged].
  { apply dict_get_is_Some. rewrite (merge_loop_keys _ _ _ _ Hout) by done.
    apply (dict_get_is_Some (V:=AggEntry)). by eexists. }
  exists merged. split; [done|congruence].
Qed.




End MergingMore.

(** ** transform.py: the three steps in a row *)
Section TransformFacts.
Import Mapper Aggregator Merger TransformProps.
Implicit Types (iqair_data : dict string Obs) (table : gmap string string)
  (co2_data : gmap string Co2Region).

(** An observation the mapper emits with a region identifier carries the
    region name the catalogue gives that identifier to. *)
Lemma mapped_region_id iqair_data table city obs region_id :
  (city, obs) ∈ map_cities_to_regions iqair_data table ->
  obs_region_id obs = Some region_id ->
  exists region,
    obs_region obs = Some region
    /\ REGION_NAME_TO_ID !! region = Some region_id.
Proof.
  intros Hin Hid.
  apply map_loop_elem_of in Hin as [Hnil | (data & _ & Hmap)].
  { by apply elem_of_nil in Hnil. }
  apply map_city_Some in Hmap as (region & rid & _ & _ & Hcat & ->).
  pose proof (attach_fields region rid data) as Hfields.
  destruct (obs_data data) as [d|] eqn:Hd.
  - destruct Hfields as [Hr Hi]. exists region. split; [done|]. congruence.
  - rewrite Hfields in Hid. unfold obs_region_id in Hid. by rewrite Hd in Hid.
Qed.


End TransformFacts.

(** ** pipeline.py: gating, interrupts and the counters *)
Section OrchestrationMore.
Import Pipeline Invariants.
Variable behaviour : stage -> Z -> stage_outcome * Z.
Implicit Types (w : world).

Ltac unfold_run :=
  unfold run_pipeline, run_extract, run_transform, run_load, update_stats,
    try_except, stage_main, mbind, M_bind, bind, now, ret, get_stats, put_stats.

Lemma run_transform_invoked w b w1 :
  run_transform behaviour w = (Ok b, w1) ->
  invoked w1 = invoked w ++ [Transform] /\ stats w1 = stats w.
Proof.
  unfold run_transform, try_except, stage_main, mbind, M_bind, bind, ret.
  destruct (behaviour Transform (clock w)) as [[|[]] secs]; simpl;
    by intros [= <- <-].
Qed.

Lemma run_load_invoked w b w1 :
  run_load behaviour w = (Ok b, w1) ->
  invoked w1 = invoked w ++ [Load] /\ stats w1 = stats w.
Proof.
  unfold run_load, try_except, stage_main, mbind, M_bind, bind, ret.
  destruct (behaviour Load (clock w)) as [[|[]] secs]; simpl;
    by intros [= <- <-].
Qed.


(** What a run does to the counters: nothing when an exception escapes
    it, the update of a success when it answers [True], the update of a
    failure when it answers [False]. *)
Lemma run_pipeline_stats_cases w :
  let s := stats w in
  let '(r, w') := run_pipeline behaviour w in
  (exists e, r = Raise e /\ stats w' = s)
  \/ (r = Ok true
      /\ stats w' = mkStats (total_runs s + 1) (successful_runs s + 1) (failed_runs s)
                      0 (start_time s) (Some (clock w')))
  \/ (r = Ok false
      /\ stats w' = mkStats (total_runs s + 1) (successful_runs s) (failed_runs s + 1)
                      (consecutive_failures s + 1) (start_time s)
                      (last_successful_run s)).
Proof.
  unfold_run. simpl.
  destruct (behaviour Extract (clock w)) as [[|[]] s1]; simpl; eauto.
  destruct (behaviour Transform (clock w + s1)) as [[|[]] s2]; simpl; eauto.
  destruct (behaviour Load (clock w + s1 + s2)) as [[|[]] s3]; simpl; eauto.
Qed.

(** An exception that escapes a run (an interrupt, an exit) is absorbed:
    [run_pipeline_safe] answers [False], the run is counted neither as a
    run nor as a failure, and no back-off is slept. *)
Theorem run_pipeline_safe_interrupted w e w1 :
  run_pipeline behaviour w = (Raise e, w1) ->
  run_pipeline_safe behaviour w = (Ok false, w1)
  /\ stats w1 = stats w.
Proof.
  intros Hrun. split.
  - unfold run_pipeline_safe, try_except, mbind, M_bind, bind, any_exn.
    by rewrite Hrun.
  - pose proof (run_pipeline_stats_cases w) as Hcases. rewrite Hrun in Hcases.
    simpl in Hcases. by destruct Hcases as [(? & _ & ?) | [[? _] | [? _]]].
Qed.

Lemma stats_consistent_step (s s' : Stats) (t : Z) :
  stats_consistent s ->
  s' = s
  \/ s' = mkStats (total_runs s + 1) (successful_runs s + 1) (failed_runs s)
            0 (start_time s) (Some t)
  \/ s' = mkStats (total_runs s + 1) (successful_runs s) (failed_runs s + 1)
            (consecutive_failures s + 1) (start_time s) (last_successful_run s) ->
  stats_consistent s'
  /\ start_time s' = start_time s
  /\ total_runs s <= total_runs s' <= total_runs s + 1.
Proof.
  unfold stats_consistent. intros (Htotal & Hsucc & Hcons & Hlast) [-> | [-> | ->]]; simpl.
  - split_and!; done || lia.
  - split_and!; first [done | lia | by eexists].
  - split_and!; first [done | lia | intros ?; apply Hlast; lia].
Qed.

Lemma run_pipeline_safe_consistent w :
  stats_consistent (stats w) ->
  exists b w',
    run_pipeline_safe behaviour w = (Ok b, w')
    /\ stats_consistent (stats w')
    /\ start_time (stats w') = start_time (stats w)
    /\ total_runs (stats w) <= total_runs (stats w') <= total_runs (stats w) + 1.
Proof.
  intros Hcons. pose proof (run_pipeline_stats_cases w) as Hcases.
  unfold run_pipeline_safe, try_except, mbind, M_bind, bind, any_exn, get_stats, ret.
  destruct (run_pipeline behaviour w) as [r w1]. simpl in Hcases.
  assert (stats_consistent (stats w1)
          /\ start_time (stats w1) = start_time (stats w)
          /\ total_runs (stats w) <= total_runs (stats w1) <= total_runs (stats w) + 1)
    as Hstep.
  { apply (stats_consistent_step _ _ (clock w1) Hcons).
    destruct Hcases as [(? & _ & ?) | [[_ ?] | [_ ?]]]; eauto. }
  destruct r as [b|e]; [|by eexists _, _].
  destruct (consecutive_failures (stats w1) >=? MAX_CONSECUTIVE_FAILURES);
    by eexists _, _.
Qed.

Lemma scheduler_iteration_consistent w next_run_time :
  stats_consistent (stats w) ->
  exists next w',
    scheduler_iteration behaviour next_run_time w = (Ok next, w')
    /\ stats_consistent (stats w')
    /\ start_time (stats w') = start_time (stats w)
    /\ total_runs (stats w) <= total_runs (stats w') <= total_runs (stats w) + 1.
Proof.
  intros Hcons. unfold scheduler_iteration, mbind, M_bind, bind, now, ret, sleep.
  destruct (clock w >=? next_run_time).
  - destruct (run_pipeline_safe_consistent w Hcons)
      as (b & w1 & -> & Hcons1 & Hstart & Hruns).
    by eexists _, _.
  - eexists _, _. split; [done|]. split_and!; [done|done|simpl; lia|simpl; lia].
Qed.

Lemma scheduler_loop_consistent turns w next_run_time :
  stats_consistent (stats w) ->
  exists next w',
    scheduler_loop behaviour turns next_run_time w = (Ok next, w')
    /\ stats_consistent (stats w')
    /\ start_time (stats w') = start_time (stats w)
    /\ total_runs (stats w) <= total_runs (stats w')
       <= total_runs (stats w) + Z.of_nat turns.
Proof.
  revert w next_run_time. induction turns as [|turns IH]; intros w next Hcons.
  { eexists _, _. split; [done|]. split_and!; [done|done|simpl; lia|simpl; lia]. }
  cbn [scheduler_loop]. unfold mbind, M_bind, bind.
  destruct (scheduler_iteration_consistent w next Hcons)
    as (n1 & w1 & -> & Hcons1 & Hstart1 & Hruns1).
  destruct (IH w1 n1 Hcons1) as (n2 & w2 & -> & Hcons2 & Hstart2 & Hruns2).
  eexists _, _. split; [done|]. split_and!; [done|congruence|lia|lia].
Qed.

(** The orchestrator never stops and its counters stay sound: whatever the
    stages do, interrupts included, the startup run and any number of
    turns of the loop return without an exception; every counted run is a
    success or a failure, the failures in a row never exceed the failures,
    the start time is the time of the call, and at most one run is
    counted at startup and one per turn. *)
Theorem main_keeps_running turns w :
  stats_consistent (stats w) ->
  exists next_run_time w',
    main behaviour turns w = (Ok next_run_time, w')
    /\ stats_consistent (stats w')
    /\ start_time (stats w') = Some (clock w)
    /\ total_runs (stats w) <= total_runs (stats w')
       <= total_runs (stats w) + 1 + Z.of_nat turns.
Proof.
  intros Hcons. unfold main, main_startup, mbind, M_bind, bind, now, get_stats,
    put_stats, ret.
  set (w0 := mkWorld (clock w)
               (mkStats (total_runs (stats w)) (successful_runs (stats w))
                  (failed_runs (stats w)) (consecutive_failures (stats w))
                  (Some (clock w)) (last_successful_run (stats w)))
               (invoked w)).
  assert (stats_consistent (stats w0)) as Hcons0 by done.
  destruct (run_pipeline_safe_consistent w0 Hcons0)
    as (b & w1 & Hsafe & Hcons1 & Hstart1 & Hruns1).
  rewrite Hsafe.
  destruct (scheduler_loop_consistent turns w1
              (clock w1 + minutes PIPELINE_INTERVAL_MINUTES) Hcons1)
    as (n2 & w2 & -> & Hcons2 & Hstart2 & Hruns2).
  eexists _, _. split; [done|].
  split_and!; [done|by rewrite Hstart2, Hstart1|simpl in *; lia|simpl in *; lia].
Qed.

(** While no run is due, the loop only waits: after [turns] turns, one
    second each, no stage has been called, the counters and the next run
    time are what they were. *)
Theorem scheduler_loop_idle turns w next_run_time :
  clock w + Z.of_nat turns <= next_run_time ->
  scheduler_loop behaviour turns next_run_time w
  = (Ok next_run_time, mkWorld (clock w + Z.of_nat turns) (stats w) (invoked w)).
Proof.
  revert w. induction turns as [|turns IH]; intros w Hidle.
  { cbn [scheduler_loop]. unfold ret. destruct w. simpl. do 2 f_equal. lia. }
  cbn [scheduler_loop]. unfold mbind, M_bind, bind.
  assert (scheduler_iteration behaviour next_run_time w
          = (Ok next_run_time, mkWorld (clock w + 1) (stats w) (invoked w))) as ->.
  { unfold scheduler_iteration, mbind, M_bind, bind, now, ret, sleep.
    assert ((clock w >=? next_run_time) = false) as ->; [|done].
    rewrite Z.geb_leb. apply Z.leb_gt. lia. }
  rewrite IH by (cbn [clock]; lia). cbn [clock stats invoked]. do 2 f_equal. lia.
Qed.

End OrchestrationMore.

Section OrchestrationWitnesses.
Import Pipeline Invariants.


Lemma run_pipeline_safe_interrupted_witness :
  run_pipeline_safe Samples.interrupted Samples.four_failures
  = (Ok false, mkWorld 10004 (mkStats 4 0 4 4 (Some 0) None) [Extract; Transform])
  /\ stats (mkWorld 10004 (mkStats 4 0 4 4 (Some 0) None) [Extract; Transform])
     = stats Samples.four_failures.
Proof.
  apply (run_pipeline_safe_interrupted Samples.interrupted Samples.four_failures
           KeyboardInterrupt).
  vm_compute. reflexivity.
Defined.

Lemma main_keeps_running_witness :
  stats_consistent (stats Samples.four_failures)
  /\ exists next_run_time w',
       main Samples.interrupted 3 Samples.four_failures = (Ok next_run_time, w')
       /\ stats_consistent (stats w')
       /\ start_time (stats w') = Some (clock Samples.four_failures)
       /\ total_runs (stats Samples.four_failures) <= total_runs (stats w')
          <= total_runs (stats Samples.four_failures) + 1 + Z.of_nat 3.
Proof.
  assert (stats_consistent (stats Samples.four_failures)) as Hcons.
  { unfold stats_consistent. simpl. split_and!; lia. }
  split; [done|].
  apply (main_keeps_running Samples.interrupted 3 Samples.four_failures Hcons).
Defined.

Lemma scheduler_loop_idle_witness :
  clock Samples.four_failures + Z.of_nat 5 <= 10005
  /\ scheduler_loop Samples.upstream_down 5 10005 Samples.four_failures
     = (Ok 10005,
        mkWorld (clock Samples.four_failures + Z.of_nat 5)
          (stats Samples.four_failures) (invoked Samples.four_failures)).
Proof.
  split; [simpl; lia|].
  apply (scheduler_loop_idle Samples.upstream_down 5 Samples.four_failures 10005).
  simpl. lia.
Defined.

End OrchestrationWitnesses.

(** ** loader.py: what a load writes *)
Section Loading.
Import Loader.
Implicit Types (fs : filesystem) (data : list json).

(** What the load leaves in a file, from the directory it started on. *)
Lemma load_and_append_data_unfold timestamp fs :
  load_and_append_data timestamp fs
  = let st1 := load_file timestamp (fs, 0) ("mapped.json", "historical_mapped.json") in
    let st2 := load_file timestamp st1 ("iqair_mapped.json", "historical_iqair_mapped.json") in
    let st3 := load_file timestamp st2 ("merged_data.json", "historical_merged_data.json") in
    (st3.2 =? 3, st3.1).
Proof.
  unfold load_and_append_data, files_to_load. cbn [fold_left length].
  by destruct (load_file _ (load_file _ (load_file _ _ _) _) _).
Qed.


Lemma load_and_append_data_lookup timestamp fs source_file target_file new_data :
  (source_file, target_file) ∈ files_to_load ->
  fs !! source_file = Some (Json new_data) ->
  (load_and_append_data timestamp fs).2 !! target_file
  = Some (Json (JArr (load_existing_data fs target_file
                        ++ [add_timestamp_to_data timestamp new_data]))).
Proof.
  rewrite load_and_append_data_unfold. unfold load_file, load_existing_data, files_to_load.
  cbn [fst snd]. intros Hin Hsource.
  destruct (fs !! "mapped.json") as [[j1|]|] eqn:H1;
    destruct (fs !! "iqair_mapped.json") as [[j2|]|] eqn:H2;
    destruct (fs !! "merged_data.json") as [[j3|]|] eqn:H3;
    simplify_map_eq; cbn [fst snd];
    repeat (apply elem_of_cons in Hin as [[= -> ->] | Hin]);
    try (by apply elem_of_nil in Hin); by simplify_map_eq.
Qed.

(** Under a positive bound the last entry of a non-empty history stays
    the last. *)
Lemma cleanup_old_entries_last filename (max_entries : Z) fs data :
  0 < max_entries ->
  fs !! filename = Some (Json (JArr data)) ->
  data <> [] ->
  exists kept,
    cleanup_old_entries filename max_entries fs !! filename = Some (Json (JArr kept))
    /\ kept `suffix_of` data
    /\ last kept = last data.
Proof.
  intros Hpos Hfile Hne. unfold cleanup_old_entries. rewrite Hfile.
  destruct (Z.of_nat (length data) >? max_entries) eqn:Hlen.
  - exists (slice_from (- max_entries) data).
    rewrite lookup_insert_eq, slice_from_neg by done.
    split_and!; [done|apply suffix_drop|].
    set (n := (length data - Z.to_nat max_entries)%nat).
    rewrite <- (take_drop n data) at 2. rewrite last_app.
    destruct (last (drop n data)) eqn:Hlast; [done|].
    apply last_None, drop_nil_inv in Hlast. lia.
  - exists data. by split_and!.
Qed.

(** When the main flow of the loader succeeds, the entry it has just
    appended to a history is still its last entry after the clean-up, and
    what is kept is a suffix of the history as appended. *)
Theorem main_keeps_newest timestamp fs fs' source_file target_file new_data :
  main timestamp fs = (true, fs') ->
  (source_file, target_file) ∈ files_to_load ->
  fs !! source_file = Some (Json new_data) ->
  exists kept,
    fs' !! target_file = Some (Json (JArr kept))
    /\ last kept = Some (add_timestamp_to_data timestamp new_data)
    /\ kept `suffix_of` (load_existing_data fs target_file
                          ++ [add_timestamp_to_data timestamp new_data]).
Proof.
  unfold main. intros Hmain Hin Hsource.
  pose proof (load_and_append_data_lookup timestamp fs _ _ _ Hin Hsource) as Hfile.
  destruct (load_and_append_data timestamp fs) as [[] fs1] eqn:Hload; [|done].
  injection Hmain as <-. cbn [snd] in Hfile.
  set (appended := load_existing_data fs target_file
                   ++ [add_timestamp_to_data timestamp new_data]) in *.
  assert (forall fs0,
            fs0 !! target_file = Some (Json (JArr appended)) ->
            exists kept,
              cleanup_old_entries target_file 50 fs0 !! target_file
              = Some (Json (JArr kept))
              /\ last kept = Some (add_timestamp_to_data timestamp new_data)
              /\ kept `suffix_of` appended) as Hkeep.
  { intros fs0 Hfs0.
    destruct (cleanup_old_entries_last target_file 50 fs0 appended)
      as (kept & Hkept & Hsuffix & Hlast); [lia|done|by destruct (load_existing_data _ _)|].
    exists kept. split_and!; [done| |done]. rewrite Hlast. apply last_snoc. }
  repeat (apply elem_of_cons in Hin as [[= -> ->] | Hin]);
    [| | |by apply elem_of_nil in Hin].
  - rewrite !cleanup_old_entries_other by done. by apply Hkeep.
  - rewrite cleanup_old_entries_other by done. apply Hkeep.
    by rewrite cleanup_old_entries_other.
  - apply Hkeep. by rewrite !cleanup_old_entries_other.
Qed.

Lemma main_keeps_newest_witness :
  exists kept,
    (main "2024-01-01T00:00:00" Samples.after_transform).2
      !! "historical_merged_data.json" = Some (Json (JArr kept))
    /\ last kept = Some (add_timestamp_to_data "2024-01-01T00:00:00" (JObj []))
    /\ kept `suffix_of`
       (load_existing_data Samples.after_transform "historical_merged_data.json"
        ++ [add_timestamp_to_data "2024-01-01T00:00:00" (JObj [])]).
Proof.
  apply (main_keeps_newest "2024-01-01T00:00:00" Samples.after_transform
           _ "merged_data.json" "historical_merged_data.json" (JObj [])).
  - vm_compute. reflexivity.
  - apply (bool_decide_unpack _). vm_compute. reflexivity.
  - vm_compute. reflexivity.
Defined.

End Loading.

(** ** loader.py and mongodb_client.py: the durable store *)
Section Durable.
Import Loader MongoDB.
Variable insert_ok : document -> bool.
Implicit Types (fs : filesystem) (db : client).

Lemma load_file_local timestamp stamp mongodb_available st file_info :
  let st' := LoaderDb.load_file insert_ok timestamp stamp mongodb_available st file_info in
  (LoaderDb.ls_fs st', LoaderDb.ls_success_count st')
  = load_file timestamp (LoaderDb.ls_fs st, LoaderDb.ls_success_count st)
      (file_info.1.1, file_info.1.2).
Proof.
  destruct file_info as [[source_file target_file] mongodb_type].
  unfold LoaderDb.load_file, load_file. cbn [fst snd].
  destruct (LoaderDb.ls_fs st !! source_file) as [[new_data|]|]; try done.
  destruct mongodb_type as [data_type|]; [|done].
  destruct mongodb_available; [|done].
  by destruct (save_to_mongodb insert_ok stamp new_data data_type (LoaderDb.ls_db st))
    as [[] db'].
Qed.

Lemma load_loop_local timestamp stamp mongodb_available files st :
  let st' :=
    fold_left (LoaderDb.load_file insert_ok timestamp stamp mongodb_available) files st in
  (LoaderDb.ls_fs st', LoaderDb.ls_success_count st')
  = fold_left (load_file timestamp) ((fun file_info => (file_info.1.1, file_info.1.2)) <$> files)
      (LoaderDb.ls_fs st, LoaderDb.ls_success_count st).
Proof.
  revert st. induction files as [|file_info files IH]; intros st; [done|].
  cbn [fold_left fmap list_fmap]. cbv zeta in *. rewrite IH.
  f_equal. apply load_file_local.
Qed.

(** The durable store never changes what the load does locally: with or
    without a connection, and whether the insertion succeeds or raises,
    the load returns the same answer and leaves the same files as the
    load that knows no store. *)
Theorem load_and_append_data_local timestamp stamp fs db :
  ((LoaderDb.load_and_append_data insert_ok timestamp stamp fs db).1,
   LoaderDb.ls_fs (LoaderDb.load_and_append_data insert_ok timestamp stamp fs db).2)
  = load_and_append_data timestamp fs.
Proof.
  unfold LoaderDb.load_and_append_data, load_and_append_data. cbn [fst snd].
  pose proof (load_loop_local timestamp stamp (connected db) LoaderDb.files_to_load
                (LoaderDb.mkLoadState fs db 0 0)) as Hlocal.
  cbv zeta in Hlocal. cbn [LoaderDb.ls_fs LoaderDb.ls_success_count] in Hlocal.
  change ((fun file_info : string * string * option string =>
             (file_info.1.1, file_info.1.2)) <$> LoaderDb.files_to_load)
    with files_to_load in Hlocal.
  rewrite <- Hlocal. done.
Qed.

(** A load sends the durable store at most one document: the merged
    artefact, typed ["merged"], and only when the client is connected, the
    artefact is a JSON document and the insertion succeeds; the mapped and
    the aggregated artefacts are never sent, the documents already stored
    are kept, and the count of saves is the number of documents added. *)
Theorem load_and_append_data_mongodb timestamp stamp fs db :
  let st := (LoaderDb.load_and_append_data insert_ok timestamp stamp fs db).2 in
  let added :=
    match fs !! "merged_data.json" with
    | Some (Json new_data) =>
        let document := mkDocument stamp.1 stamp.2 "merged" new_data in
        if connected db && insert_ok document then [document] else []
    | _ => []
    end in
  connected (LoaderDb.ls_db st) = connected db
  /\ climate (LoaderDb.ls_db st) = climate db ++ added
  /\ LoaderDb.ls_mongodb_success_count st = Z.of_nat (length added).
Proof.
  unfold LoaderDb.load_and_append_data, LoaderDb.files_to_load.
  cbn [fold_left snd]. unfold LoaderDb.load_file.
  cbn [LoaderDb.ls_fs LoaderDb.ls_db LoaderDb.ls_success_count
       LoaderDb.ls_mongodb_success_count].
  destruct (fs !! "mapped.json") as [[j1|]|] eqn:H1;
    cbn [LoaderDb.ls_fs LoaderDb.ls_db LoaderDb.ls_success_count
         LoaderDb.ls_mongodb_success_count];
    simplify_map_eq;
    destruct (fs !! "iqair_mapped.json") as [[j2|]|] eqn:H2;
    cbn [LoaderDb.ls_fs LoaderDb.ls_db LoaderDb.ls_success_count
         LoaderDb.ls_mongodb_success_count];
    simplify_map_eq;
    destruct (fs !! "merged_data.json") as [[j3|]|] eqn:H3;
    cbn [LoaderDb.ls_fs LoaderDb.ls_db LoaderDb.ls_success_count
         LoaderDb.ls_mongodb_success_count];
    simplify_map_eq;
    try (by rewrite app_nil_r);
    unfold save_to_mongodb, save_historical_data;
    destruct (connected db) eqn:Hconn; cbn [negb andb];
    try (by rewrite app_nil_r);
    destruct (insert_ok _) eqn:Hins; cbn; rewrite ?Hconn, ?app_nil_r; done.
Qed.

End Durable.

(** ** extract: the requests of the air-quality extraction *)
Section Extraction.
Import Extract.
Variable network : list (Q * Q) -> Q * Q -> reply.
Implicit Types (cities : dict string (Q * Q)) (s : session)
  (d : dict string json).

Lemma exclude_ni_loop_elem_of cities (acc : dict string (Q * Q)) city coords :
  (city, coords) ∈
    fold_left
      (fun uk_cities '(city, coords) =>
         if negb (is_northern_ireland_city city)
         then dict_set city coords uk_cities
         else uk_cities)
      cities acc ->
  (city, coords) ∈ acc
  \/ ((city, coords) ∈ cities /\ is_northern_ireland_city city = false).
Proof.
  revert acc. induction cities as [|[c xy] rest IH]; intros acc; [by left|].
  cbn [fold_left]. intros Hin. destruct (IH _ Hin) as [Hacc | [Hrest Hni]].
  - destruct (is_northern_ireland_city c) eqn:Hc; cbn [negb] in Hacc; [by left|].
    apply dict_set_elem_of in Hacc as [[= -> ->] | Hacc]; [|by left].
    right. split; [apply list_elem_of_here|done].
  - right. split; [by apply list_elem_of_further|done].
Qed.

Lemma exclude_ni_elem_of cities city coords :
  (city, coords) ∈ exclude_ni cities ->
  (city, coords) ∈ cities /\ is_northern_ireland_city city = false.
Proof.
  intros Hin. apply exclude_ni_loop_elem_of in Hin as [Hnil|?]; [|done].
  by apply elem_of_nil in Hnil.
Qed.

Lemma dict_set_length {K V} `{EqDecision K} (k : K) (v : V) (d' : dict K V) :
  (length (dict_set k v d') <= S (length d'))%nat.
Proof.
  induction d' as [|[k0 v0] d' IH]; simpl; [lia|].
  destruct (decide (k0 = k)); simpl; lia.
Qed.

Lemma exclude_ni_length cities : (length (exclude_ni cities) <= length cities)%nat.
Proof.
  unfold exclude_ni.
  assert (forall (acc : dict string (Q * Q)),
            (length
               (fold_left
                  (fun uk_cities '(city, coords) =>
                     if negb (is_northern_ireland_city city)
                     then dict_set city coords uk_cities
                     else uk_cities)
                  cities acc)
             <= length acc + length cities)%nat) as Hgen.
  { induction cities as [|[c xy] rest IH]; intros acc; cbn [fold_left length]; [lia|].
    etransitivity; [apply IH|].
    destruct (negb (is_northern_ireland_city c)); [|lia].
    pose proof (dict_set_length c xy acc). lia. }
  apply (Hgen []).
Qed.

(** One city: one request, or two when the first is refused with 429; two
    seconds of pause, sixty more before a retry; at most its own entry is
    written. *)
Lemma extract_city_spec s d city coords s' d' :
  extract_city network (s, d) (city, coords) = Some (s', d') ->
  exists k,
    (k = 1 \/ k = 2)%nat
    /\ requested s' = requested s ++ replicate k coords
    /\ slept s' = slept s + 2 + 60 * (Z.of_nat k - 1)
    /\ (d' = d \/ exists data, d' = dict_set city data d).
Proof.
  unfold extract_city, get, sleep. cbn [requested slept].
  destruct (network (requested s) coords) as [status body|]; [|done].
  destruct (status =? 200).
  { destruct body as [data|]; cbn [mbind option_bind]; [|done].
    intros [= <- <-]. exists 1%nat. cbn. split_and!; [by left|done|lia|right; by eexists]. }
  destruct (status =? 429).
  - destruct (network (requested s ++ [coords]) coords) as [status2 body2|]; [|done].
    destruct (status2 =? 200).
    + destruct body2 as [data|]; cbn [mbind option_bind]; [|done].
      intros [= <- <-]. exists 2%nat. cbn.
      split_and!; [by right|by rewrite <- app_assoc|lia|right; by eexists].
    + intros [= <- <-]. exists 2%nat. cbn.
      split_and!; [by right|by rewrite <- app_assoc|lia|by left].
  - intros [= <- <-]. exists 1%nat. cbn. split_and!; [by left|done|lia|by left].
Qed.

Lemma extract_loop_spec cities s d s' d' :
  extract_loop network cities (s, d) = Some (s', d') ->
  exists new,
    requested s' = requested s ++ new
    /\ (length cities <= length new <= 2 * length cities)%nat
    /\ slept s' = slept s + 2 * Z.of_nat (length cities)
                  + 60 * (Z.of_nat (length new) - Z.of_nat (length cities))
    /\ (forall coords, coords ∈ new -> coords ∈ cities.*2)
    /\ (forall city, city ∈ dict_keys d' -> city ∈ dict_keys d \/ city ∈ dict_keys cities).
Proof.
  revert s d. induction cities as [|[city coords] rest IH]; intros s d.
  { intros [= <- <-]. exists []. rewrite app_nil_r. cbn.
    split_and!; [done|lia|lia|lia| |by left]. intros ? Hin. by apply elem_of_nil in Hin. }
  cbn [extract_loop].
  destruct (extract_city network (s, d) (city, coords)) as [[s1 d1]|] eqn:Hcity;
    cbn [mbind option_bind]; [|done].
  intros Hloop.
  destruct (extract_city_spec _ _ _ _ _ _ Hcity) as (k & Hk & Hreq1 & Hslept1 & Hd1).
  destruct (IH _ _ Hloop) as (new & Hreq & Hlen & Hslept & Hcoords & Hkeys).
  exists (replicate k coords ++ new).
  rewrite Hreq, Hreq1, Hslept, Hslept1, length_app, length_replicate.
  cbn [length]. split_and!.
  - by rewrite <- app_assoc.
  - lia.
  - lia.
  - lia.
  - intros c Hc. rewrite fmap_cons. cbn [snd]. apply elem_of_app in Hc as [Hc|Hc].
    + apply elem_of_replicate_inv in Hc as ->. apply list_elem_of_here.
    + apply list_elem_of_further. by apply Hcoords.
  - intros c Hc. unfold dict_keys at 2. rewrite fmap_cons. cbn [fst].
    destruct (Hkeys c Hc) as [Hd1c | Hrest].
    + destruct Hd1 as [-> | [data ->]]; [by left|].
      rewrite dict_keys_set in Hd1c. case_decide; [by left|].
      apply elem_of_app in Hd1c as [?|Hc1]; [by left|].
      apply list_elem_of_singleton in Hc1 as ->. right. apply list_elem_of_here.
    + right. by apply list_elem_of_further.
Qed.


End Extraction.

Section ExtractionWitness.
Import Extract.


End ExtractionWitness.
